(** * Chat.jsx: the client-side controller of the chat view

    A shallow embedding of the handlers of [src/components/Chat.jsx] (and of
    its rebranded copy, which differs in the greeting texts and in one
    alternative of the voice-name pattern): [createConversation],
    [loadMessages], [selectConversation], [newConversation], [sendMessage],
    [handleKey], [speakText], [ensureMicPermission], [toggleListening], the
    start-up effect [init] and the three callbacks of the recognition object.

    A handler is a computation over the component's state (the [useState]
    cells and the [useRef] cells) that logs, in program order, every setter
    call and every call to the outside (fetch, speech synthesis, speech
    recognition, getUserMedia, preventDefault).  What the outside answers is
    read from an explicit record of outcomes, so that a handler is a total,
    executable function.  Each handler is run to completion: the awaits of
    one call are resolved from the outcomes before the next event is
    handled. *)

From Stdlib Require Import List Bool NArith ZArith String Ascii Lia.
Import ListNotations.

Set Implicit Arguments.

(** ** JavaScript strings *)

(** A JS string is a sequence of UTF-16 code units. *)
Definition code_unit := N.
Definition jsstring := list code_unit.

Definition js (s : string) : jsstring :=
  map N_of_ascii (list_ascii_of_string s).

(** ECMAScript WhiteSpace and LineTerminator code points, the ones
    [String.prototype.trim] strips. *)
Definition is_white_space (c : code_unit) : bool :=
  ((9 <=? c) && (c <=? 13) || (c =? 32) || (c =? 160) || (c =? 5760)
   || (8192 <=? c) && (c <=? 8202) || (c =? 8232) || (c =? 8233)
   || (c =? 8239) || (c =? 8287) || (c =? 12288) || (c =? 65279))%N.

Fixpoint trimStart (s : jsstring) : jsstring :=
  match s with
  | c :: s' => if is_white_space c then trimStart s' else s
  | [] => []
  end.

Definition trimEnd (s : jsstring) : jsstring := rev (trimStart (rev s)).

Definition trim (s : jsstring) : jsstring := trimEnd (trimStart s).

(** [!text] on a string: only the empty string is falsy. *)
Definition falsy (s : jsstring) : bool :=
  match s with [] => true | _ => false end.

Definition jsstring_eqb (a b : jsstring) : bool :=
  if list_eq_dec N.eq_dec a b then true else false.

(** Canonicalisation of a code unit under the [i] flag (no [u] flag), as far
    as a pattern of ASCII characters can tell: ASCII letters are compared in
    upper case, and a code unit outside ASCII never folds into ASCII. *)
Definition canonicalize (c : code_unit) : code_unit :=
  if ((97 <=? c) && (c <=? 122))%N then (c - 32)%N else c.

Fixpoint starts_with_i (pat s : jsstring) : bool :=
  match pat, s with
  | [], _ => true
  | p :: pat', c :: s' =>
      (canonicalize p =? canonicalize c)%N && starts_with_i pat' s'
  | _ :: _, [] => false
  end.

(** [/w1|w2|.../i.test(s)] for literal alternatives: some alternative occurs
    somewhere in [s], letters compared without case. *)
Fixpoint test_i (alts : list jsstring) (s : jsstring) : bool :=
  existsb (fun pat => starts_with_i pat s) alts
  || match s with
     | [] => false
     | _ :: s' => test_i alts s'
     end.

(** ** Data model *)

Definition ConvId := jsstring.

Record Conversation := {
  id : ConvId;
  title : option jsstring;
  last_message_at : option jsstring
}.

Inductive Role := user | assistant.

Record Message := { role : Role; content : jsstring }.

Inductive MicPermission := unknown | granted | denied | prompt.

Record Voice := { name : jsstring; lang : jsstring }.

(** A [SpeechSynthesisUtterance]; a fresh one has no voice and neutral
    rate, pitch and volume. *)
Record Utterance := {
  text : jsstring;
  voice : option Voice;
  rate : Z;
  pitch : Z;
  volume : Z
}.

Definition new_SpeechSynthesisUtterance (t : jsstring) : Utterance :=
  {| text := t; voice := None; rate := 1; pitch := 1; volume := 1 |}.

(** A recognition object, with the three properties the code sets on it.
    Its [onresult], [onend] and [onerror] callbacks are [rec_onresult],
    [rec_onend] and [rec_onerror] below. *)
Record Recognition := {
  rec_lang : jsstring;
  interimResults : bool;
  continuous : bool
}.

(** The two copies of the component differ in these texts only. *)
Inductive Variant := ChatJsx | Rebranded.

Definition greeting (v : Variant) : jsstring :=
  match v with
  | ChatJsx => js "Hi! I'm your AI assistant. How can I help today?"
  | Rebranded => js "Hi! I'm Roger. How can I help today?"
  end.

(** The rebranded text has an em dash (U+2014) after the name. *)
Definition new_chat_greeting (v : Variant) : jsstring :=
  match v with
  | ChatJsx => js "New chat started. What would you like to discuss?"
  | Rebranded =>
      js "New chat started. I'm Roger " ++ [8212%N]
         ++ js " what would you like to discuss?"
  end.

Definition voice_name_alternatives (v : Variant) : list jsstring :=
  match v with
  | ChatJsx => [js "Female"; js "Google"; js "Natural"]
  | Rebranded => [js "Female"; js "Google"; js "Natural"; js "Roger"]
  end.

Definition apology : jsstring :=
  js "Sorry, I ran into an issue reaching the brain. Try again.".

(** The component's state: the nine [useState] cells and the two refs that
    the handlers use ([endRef] only scrolls the view). *)
Record State := {
  conversations : list Conversation;
  activeId : option ConvId;
  messages : list Message;
  input : jsstring;
  loading : bool;
  voiceEnabled : bool;
  listening : bool;
  micPermission : MicPermission;
  voiceStatus : jsstring;
  recognitionRef : option Recognition;
  voicesRef : list Voice
}.

Definition initial_state : State :=
  {| conversations := []; activeId := None; messages := []; input := [];
     loading := false; voiceEnabled := true; listening := false;
     micPermission := unknown; voiceStatus := [];
     recognitionRef := None; voicesRef := [] |}.

Definition with_conversations (v : list Conversation) (s : State) : State :=
  {| conversations := v; activeId := s.(activeId); messages := s.(messages);
     input := s.(input); loading := s.(loading);
     voiceEnabled := s.(voiceEnabled); listening := s.(listening);
     micPermission := s.(micPermission); voiceStatus := s.(voiceStatus);
     recognitionRef := s.(recognitionRef); voicesRef := s.(voicesRef) |}.

Definition with_activeId (v : option ConvId) (s : State) : State :=
  {| conversations := s.(conversations); activeId := v;
     messages := s.(messages); input := s.(input); loading := s.(loading);
     voiceEnabled := s.(voiceEnabled); listening := s.(listening);
     micPermission := s.(micPermission); voiceStatus := s.(voiceStatus);
     recognitionRef := s.(recognitionRef); voicesRef := s.(voicesRef) |}.

Definition with_messages (v : list Message) (s : State) : State :=
  {| conversations := s.(conversations); activeId := s.(activeId);
     messages := v; input := s.(input); loading := s.(loading);
     voiceEnabled := s.(voiceEnabled); listening := s.(listening);
     micPermission := s.(micPermission); voiceStatus := s.(voiceStatus);
     recognitionRef := s.(recognitionRef); voicesRef := s.(voicesRef) |}.

Definition with_input (v : jsstring) (s : State) : State :=
  {| conversations := s.(conversations); activeId := s.(activeId);
     messages := s.(messages); input := v; loading := s.(loading);
     voiceEnabled := s.(voiceEnabled); listening := s.(listening);
     micPermission := s.(micPermission); voiceStatus := s.(voiceStatus);
     recognitionRef := s.(recognitionRef); voicesRef := s.(voicesRef) |}.

Definition with_loading (v : bool) (s : State) : State :=
  {| conversations := s.(conversations); activeId := s.(activeId);
     messages := s.(messages); input := s.(input); loading := v;
     voiceEnabled := s.(voiceEnabled); listening := s.(listening);
     micPermission := s.(micPermission); voiceStatus := s.(voiceStatus);
     recognitionRef := s.(recognitionRef); voicesRef := s.(voicesRef) |}.

Definition with_voiceEnabled (v : bool) (s : State) : State :=
  {| conversations := s.(conversations); activeId := s.(activeId);
     messages := s.(messages); input := s.(input); loading := s.(loading);
     voiceEnabled := v; listening := s.(listening);
     micPermission := s.(micPermission); voiceStatus := s.(voiceStatus);
     recognitionRef := s.(recognitionRef); voicesRef := s.(voicesRef) |}.

Definition with_listening (v : bool) (s : State) : State :=
  {| conversations := s.(conversations); activeId := s.(activeId);
     messages := s.(messages); input := s.(input); loading := s.(loading);
     voiceEnabled := s.(voiceEnabled); listening := v;
     micPermission := s.(micPermission); voiceStatus := s.(voiceStatus);
     recognitionRef := s.(recognitionRef); voicesRef := s.(voicesRef) |}.

Definition with_micPermission (v : MicPermission) (s : State) : State :=
  {| conversations := s.(conversations); activeId := s.(activeId);
     messages := s.(messages); input := s.(input); loading := s.(loading);
     voiceEnabled := s.(voiceEnabled); listening := s.(listening);
     micPermission := v; voiceStatus := s.(voiceStatus);
     recognitionRef := s.(recognitionRef); voicesRef := s.(voicesRef) |}.

Definition with_voiceStatus (v : jsstring) (s : State) : State :=
  {| conversations := s.(conversations); activeId := s.(activeId);
     messages := s.(messages); input := s.(input); loading := s.(loading);
     voiceEnabled := s.(voiceEnabled); listening := s.(listening);
     micPermission := s.(micPermission); voiceStatus := v;
     recognitionRef := s.(recognitionRef); voicesRef := s.(voicesRef) |}.

Definition with_recognitionRef (v : option Recognition) (s : State) : State :=
  {| conversations := s.(conversations); activeId := s.(activeId);
     messages := s.(messages); input := s.(input); loading := s.(loading);
     voiceEnabled := s.(voiceEnabled); listening := s.(listening);
     micPermission := s.(micPermission); voiceStatus := s.(voiceStatus);
     recognitionRef := v; voicesRef := s.(voicesRef) |}.

Definition with_voicesRef (v : list Voice) (s : State) : State :=
  {| conversations := s.(conversations); activeId := s.(activeId);
     messages := s.(messages); input := s.(input); loading := s.(loading);
     voiceEnabled := s.(voiceEnabled); listening := s.(listening);
     micPermission := s.(micPermission); voiceStatus := s.(voiceStatus);
     recognitionRef := s.(recognitionRef); voicesRef := v |}.

(** ** The outside world *)

Inductive Request :=
| GetConversations
| PostConversation (new_title : option jsstring)
| GetMessages (conversationId : ConvId)
| PostAsk (message : jsstring) (conversation_id : option ConvId).

(** What a [fetch] gives: [None] when the promise rejects, otherwise a
    response with its [ok] flag and the outcome of [res.json()], [None] when
    that rejects.  A body that parses is taken to have the shape the backend
    interface gives it, except where the code itself inspects the shape. *)
Record Response (A : Type) := { ok : bool; json_body : option A }.

Definition FetchOutcome (A : Type) := option (Response A).

(** The body of the message-history response, on which the code tests
    [Array.isArray]. *)
Inductive MessagesBody := NotAnArray | AnArray (l : list Message).

Record AskData := { reply : jsstring }.

(** What the outside answers while one handler runs. *)
Record Outcomes := {
  conversations_get : FetchOutcome (list Conversation);
  conversations_post : option jsstring -> FetchOutcome Conversation;
  messages_get : ConvId -> FetchOutcome MessagesBody;
  ask_post : jsstring -> option ConvId -> FetchOutcome AskData;
  getUserMedia_resolves : bool;
  rec_start_throws : bool;
  synth_cancel_throws : bool;
  synth_speak_throws : bool
}.

(** What the browser offers; fixed for a session ([useMemo] with no
    dependencies). *)
Record Platform := {
  recSupported : bool;
  synthSupported : bool;
  has_getUserMedia : bool
}.

Inductive Effect :=
| SetConversations (v : list Conversation)
| SetActiveId (v : option ConvId)
| SetMessages (v : list Message)
| SetInput (v : jsstring)
| SetLoading (v : bool)
| SetListening (v : bool)
| SetMicPermission (v : MicPermission)
| SetVoiceStatus (v : jsstring)
| Fetch (r : Request)
| SynthCancel
| SynthSpeak (u : Utterance)
| GetUserMedia
| NewRecognition (r : Recognition)
| RecStart (r : Recognition)
| RecStop (r : Recognition)
| PreventDefault.

Inductive Error :=
| NetworkError
| ParseError
| RequestFailed
| NotAllowedError
| InvalidStateError
| SynthesisError.

(** ** Handlers as computations

    A computation takes the state, and gives how it completes (normally, or
    by an exception that nobody caught), the state it leaves and the effects
    it performed, in program order. *)

Inductive Completion (A : Type) :=
| Normal (a : A)
| Thrown (e : Error).

Arguments Thrown {A} e.

Definition M (A : Type) := State -> Completion A * State * list Effect.

Definition ret {A} (a : A) : M A := fun s => (Normal a, s, []).

Definition throw {A} (e : Error) : M A := fun s => (Thrown e, s, []).

Definition bind {A B} (m : M A) (k : A -> M B) : M B :=
  fun s =>
    match m s with
    | (Normal a, s1, l1) =>
        match k a s1 with
        | (r, s2, l2) => (r, s2, l1 ++ l2)
        end
    | (Thrown e, s1, l1) => (Thrown e, s1, l1)
    end.

Declare Scope js_scope.
Delimit Scope js_scope with js.
Notation "x <- m ;; k" := (bind m (fun x => k))
  (at level 61, m at next level, right associativity) : js_scope.
Notation "m ;; k" := (bind m (fun _ => k))
  (at level 61, right associativity) : js_scope.
Open Scope js_scope.

(** [try { body } catch (e) { handler }] *)
Definition try_catch {A} (body : M A) (handler : Error -> M A) : M A :=
  fun s =>
    match body s with
    | (Normal a, s1, l1) => (Normal a, s1, l1)
    | (Thrown e, s1, l1) =>
        match handler e s1 with
        | (r, s2, l2) => (r, s2, l1 ++ l2)
        end
    end.

(** [try { body } finally { final }]: [final] runs however [body]
    completes, and the completion of [body] stands unless [final] throws. *)
Definition try_finally {A} (body : M A) (final : M unit) : M A :=
  fun s =>
    match body s with
    | (r, s1, l1) =>
        match final s1 with
        | (Normal _, s2, l2) => (r, s2, l1 ++ l2)
        | (Thrown e, s2, l2) => (Thrown e, s2, l1 ++ l2)
        end
    end.

Definition get : M State := fun s => (Normal s, s, []).

Definition perform (e : Effect) : M unit := fun s => (Normal tt, s, [e]).

Definition when (b : bool) (m : M unit) : M unit := if b then m else ret tt.

(** The setters; [update*] is the form that takes a function of the
    previous value. *)
Definition setConversations (v : list Conversation) : M unit :=
  fun s => (Normal tt, with_conversations v s, [SetConversations v]).

Definition updateConversations
    (f : list Conversation -> list Conversation) : M unit :=
  fun s => setConversations (f s.(conversations)) s.

Definition setActiveId (v : option ConvId) : M unit :=
  fun s => (Normal tt, with_activeId v s, [SetActiveId v]).

Definition setMessages (v : list Message) : M unit :=
  fun s => (Normal tt, with_messages v s, [SetMessages v]).

Definition updateMessages (f : list Message -> list Message) : M unit :=
  fun s => setMessages (f s.(messages)) s.

Definition setInput (v : jsstring) : M unit :=
  fun s => (Normal tt, with_input v s, [SetInput v]).

Definition setLoading (v : bool) : M unit :=
  fun s => (Normal tt, with_loading v s, [SetLoading v]).

Definition setVoiceEnabled (v : bool) : M unit :=
  fun s => (Normal tt, with_voiceEnabled v s, []).

Definition setListening (v : bool) : M unit :=
  fun s => (Normal tt, with_listening v s, [SetListening v]).

Definition setMicPermission (v : MicPermission) : M unit :=
  fun s => (Normal tt, with_micPermission v s, [SetMicPermission v]).

Definition setVoiceStatus (v : jsstring) : M unit :=
  fun s => (Normal tt, with_voiceStatus v s, [SetVoiceStatus v]).

(** [await fetch(...)]: the request goes out, and the promise rejects or
    gives a response. *)
Definition fetch {A} (r : Request) (out : FetchOutcome A) : M (Response A) :=
  perform (Fetch r) ;;
  match out with
  | None => throw NetworkError
  | Some res => ret res
  end.

(** [await res.json()] *)
Definition json {A} (res : Response A) : M A :=
  match res.(json_body) with
  | None => throw ParseError
  | Some data => ret data
  end.

(** ** The handlers of [Chat] *)

Section Chat.

Variable v : Variant.
Variable p : Platform.
Variable o : Outcomes.

Definition greeting_message : Message :=
  {| role := assistant; content := greeting v |}.

Definition createConversation (new_title : option jsstring)
    : M Conversation :=
  res <- fetch (PostConversation new_title)
               (o.(conversations_post) new_title) ;;
  data <- json res ;;
  (* Prepend to list *)
  updateConversations
    (fun prev => {| id := data.(id); title := data.(title);
                    last_message_at := data.(last_message_at) |} :: prev) ;;
  ret data.

Definition loadMessages (conversationId : ConvId) : M unit :=
  try_catch
    (res <- fetch (GetMessages conversationId)
                  (o.(messages_get) conversationId) ;;
     data <- json res ;;
     match data with
     | AnArray (m :: l) => setMessages (m :: l)
     | AnArray [] | NotAnArray => setMessages [greeting_message]
     end)
    (fun _ => setMessages [greeting_message]).

Definition selectConversation (i : ConvId) : M unit :=
  s <- get ;;
  match s.(activeId) with
  | Some a => if jsstring_eqb i a then ret tt
              else (setActiveId (Some i) ;; loadMessages i)
  | None => setActiveId (Some i) ;; loadMessages i
  end.

Definition newConversation : M unit :=
  created <- createConversation None ;;
  setActiveId (Some created.(id)) ;;
  setMessages
    [{| role := assistant; content := new_chat_greeting v |}].

(** The start-up effect. *)
Definition init : M unit :=
  try_catch
    (res <- fetch GetConversations o.(conversations_get) ;;
     data <- json res ;;
     setConversations data ;;
     match data with
     | c :: _ => setActiveId (Some c.(id)) ;; loadMessages c.(id)
     | [] =>
         created <- createConversation None ;;
         setActiveId (Some created.(id)) ;;
         loadMessages created.(id)
     end)
    (fun _ =>
       (* fallback to ephemeral single session *)
       setMessages [greeting_message]).

(** Voice: speech synthesis. *)
Definition preferred_voice (voices : list Voice) : option Voice :=
  match
    find (fun vc => test_i [js "en-US"; js "en_GB"] vc.(lang)
                    && test_i (voice_name_alternatives v) vc.(name))
         voices
  with
  | Some vc => Some vc
  | None => nth_error voices 0
  end.

Definition speakText (t : jsstring) : M unit :=
  if negb p.(synthSupported) then ret tt else
  s <- get ;;
  let utter := new_SpeechSynthesisUtterance t in
  let preferred := preferred_voice s.(voicesRef) in
  let utter :=
    match preferred with
    | Some vc => {| text := utter.(text); voice := Some vc;
                    rate := utter.(rate); pitch := utter.(pitch);
                    volume := utter.(volume) |}
    | None => utter
    end in
  let utter := {| text := utter.(text); voice := utter.(voice);
                  rate := 1; pitch := 1; volume := 1 |} in
  try_catch
    (perform SynthCancel ;;
     when o.(synth_cancel_throws) (throw SynthesisError) ;;
     perform (SynthSpeak utter) ;;
     when o.(synth_speak_throws) (throw SynthesisError))
    (fun _ => ret tt).

Definition sendMessage : M unit :=
  s <- get ;;
  let text := trim s.(input) in
  if falsy text || s.(loading) then ret tt else
  let next := s.(messages) ++ [{| role := user; content := text |}] in
  setMessages next ;;
  setInput [] ;;
  setLoading true ;;
  try_finally
    (try_catch
       (res <- fetch (PostAsk text s.(activeId))
                     (o.(ask_post) text s.(activeId)) ;;
        when (negb res.(ok)) (throw RequestFailed) ;;
        data <- json res ;;
        let reply := {| role := assistant; content := data.(reply) |} in
        updateMessages (fun prev => prev ++ [reply]) ;;
        (* refresh conversation list timestamps *)
        try_catch
          (listRes <- fetch GetConversations o.(conversations_get) ;;
           list <- json listRes ;;
           setConversations list)
          (fun _ => ret tt) ;;
        when s.(voiceEnabled) (speakText reply.(content)))
       (fun _ =>
          updateMessages
            (fun prev =>
               prev ++ [{| role := assistant; content := apology |}])))
    (setLoading false).

Record KeyboardEvent := { key : jsstring; shiftKey : bool }.

Definition handleKey (e : KeyboardEvent) : M unit :=
  if jsstring_eqb e.(key) (js "Enter") && negb e.(shiftKey)
  then perform PreventDefault ;; sendMessage
  else ret tt.

(** Request explicit mic permission. *)
Definition ensureMicPermission : M bool :=
  try_catch
    (if negb p.(has_getUserMedia) then ret true else
     perform GetUserMedia ;;
     when (negb o.(getUserMedia_resolves)) (throw NotAllowedError) ;;
     setMicPermission granted ;;
     ret true)
    (fun _ =>
       setMicPermission denied ;;
       setVoiceStatus
         (js "Microphone permission blocked. Please allow access in your browser settings.") ;;
       ret false).

Definition new_recognition : Recognition :=
  {| rec_lang := js "en-US"; interimResults := true; continuous := true |}.

Definition set_recognitionRef (r : Recognition) : M unit :=
  fun s => (Normal tt, with_recognitionRef (Some r) s, []).

(** Voice: speech recognition. *)
Definition toggleListening : M unit :=
  s <- get ;;
  if negb p.(recSupported) then
    setVoiceStatus
      (js "Speech recognition is not supported in this browser.")
  else
    r <- match s.(recognitionRef) with
         | Some r => ret r
         | None =>
             perform (NewRecognition new_recognition) ;;
             set_recognitionRef new_recognition ;;
             ret new_recognition
         end ;;
    if s.(listening) then
      perform (RecStop r) ;;
      setListening false
    else
      granted_ok <- ensureMicPermission ;;
      if negb granted_ok then ret tt else
      try_catch
        (perform (RecStart r) ;;
         when o.(rec_start_throws) (throw InvalidStateError) ;;
         setVoiceStatus (js "Listening...") ;;
         setListening true)
        (fun _ =>
           setListening false ;;
           setVoiceStatus
             (js "Could not start speech recognition. Make sure only one tab is listening.")).

(** The callbacks installed on the recognition object. *)
Record ResultEvent := { resultIndex : nat; results : list jsstring }.

Definition rec_onresult (ev : ResultEvent) : M unit :=
  setInput (List.concat (skipn ev.(resultIndex) ev.(results))).

Definition rec_onend : M unit := setListening false.

Definition rec_onerror (code : option jsstring) : M unit :=
  setListening false ;;
  setVoiceStatus
    (match code with
     | Some c =>
         if jsstring_eqb c (js "not-allowed")
         then js "Microphone permission denied."
         else js "Speech recognition error. Try again."
     | None => js "Speech recognition error. Try again."
     end).

(** [loadVoices], run at start-up and on [voiceschanged]. *)
Definition loadVoices (voices : list Voice) : M unit :=
  fun s => (Normal tt, with_voicesRef voices s, []).

End Chat.

(** ** A session: the events the component reacts to *)

Inductive Event :=
| Mount
| VoicesChanged (voices : list Voice)
| PermissionState (st : MicPermission)
| InputChange (value : jsstring)
| KeyDown (e : KeyboardEvent)
| ClickSend
| ClickNew
| ClickConversation (i : ConvId)
| VoiceCheckbox (checked : bool)
| ClickSpeak
| ClickBubble (t : jsstring)
| RecognitionResult (ev : ResultEvent)
| RecognitionEnd
| RecognitionError (code : option jsstring).

(** A callback of the recognition object can only fire once the object has
    been constructed. *)
Definition on_recognition (m : M unit) : M unit :=
  s <- get ;;
  match s.(recognitionRef) with
  | Some _ => m
  | None => ret tt
  end.

Definition handle (v : Variant) (p : Platform) (o : Outcomes) (e : Event)
    : M unit :=
  match e with
  | Mount => init v o
  | VoicesChanged voices => when p.(synthSupported) (loadVoices voices)
  | PermissionState st => setMicPermission st
  | InputChange value => setInput value
  | KeyDown k => handleKey v p o k
  | ClickSend => sendMessage v p o
  | ClickNew => newConversation v o
  | ClickConversation i => selectConversation v o i
  | VoiceCheckbox checked => setVoiceEnabled checked
  | ClickSpeak => toggleListening p o
  | ClickBubble t => speakText v p o t
  | RecognitionResult ev => on_recognition (rec_onresult ev)
  | RecognitionEnd => on_recognition rec_onend
  | RecognitionError code => on_recognition (rec_onerror code)
  end.

(** The events of a session are handled one after the other, each with the
    outcomes the outside gives at that time.  An exception that leaves a
    handler is reported by the browser and the session goes on. *)
Fixpoint run (v : Variant) (p : Platform) (evs : list (Outcomes * Event))
    (s : State) : State * list Effect :=
  match evs with
  | [] => (s, [])
  | (o, e) :: evs' =>
      match handle v p o e s with
      | (_, s1, l1) =>
          match run v p evs' s1 with
          | (s2, l2) => (s2, l1 ++ l2)
          end
      end
  end.

(** ** Observations on the effects of a run *)

Definition is_new_recognition (e : Effect) : bool :=
  match e with NewRecognition _ => true | _ => false end.

Definition touches_recognition (e : Effect) : bool :=
  match e with
  | NewRecognition _ | RecStart _ | RecStop _ => true
  | _ => false
  end.



Definition is_ask (e : Effect) : bool :=
  match e with Fetch (PostAsk _ _) => true | _ => false end.

Definition is_append_of (m : Message) (e : Effect) : bool :=
  match e with
  | SetMessages l =>
      match rev l with
      | m' :: _ =>
          match m.(role), m'.(role) with
          | user, user | assistant, assistant =>
              jsstring_eqb m.(content) m'.(content)
          | _, _ => false
          end
      | [] => false
      end
  | _ => false
  end.

(** The state a run leaves, and the effects it performed. *)
Definition state_of {A} (r : Completion A * State * list Effect) : State :=
  snd (fst r).

Definition effects_of {A} (r : Completion A * State * list Effect)
    : list Effect :=
  snd r.

Definition completion_of {A} (r : Completion A * State * list Effect)
    : Completion A :=
  fst (fst r).

(** Number of recognition objects constructed. *)
Definition constructed (l : list Effect) : nat :=
  List.length (filter is_new_recognition l).

(** Index of the first effect that satisfies [f]. *)
Fixpoint position (f : Effect -> bool) (l : list Effect) : option nat :=
  match l with
  | [] => None
  | e :: l' =>
      if f e then Some 0
      else match position f l' with
           | Some n => Some (S n)
           | None => None
           end
  end.


(** A computation that leaves speech recognition alone: it keeps the ref,
    performs nothing on a recognition object and never switches
    [listening] on. *)
Definition quiet {A} (m : M A) : Prop :=
  forall s,
    match m s with
    | (_, s', l) =>
        s'.(recognitionRef) = s.(recognitionRef)
        /\ (s'.(listening) = true -> s.(listening) = true)
        /\ forallb (fun e => negb (touches_recognition e)) l = true
    end.

(** What holds of the state [s] and of the effects [l] performed so far
    at every point of a session: as long as the ref is empty nothing has
    touched a recognition object; once it holds an object, that object is
    the only one constructed and the only one started or stopped; and
    without support for recognition the adapter is idle and the ref
    empty. *)
Definition recognition_invariant (p : Platform) (s : State)
    (l : list Effect) : Prop :=
  match s.(recognitionRef) with
  | None => forallb (fun e => negb (touches_recognition e)) l = true
  | Some r =>
      constructed l = 1
      /\ forall e, In e l -> touches_recognition e = true ->
                   e = NewRecognition r \/ e = RecStart r \/ e = RecStop r
  end
  /\ (p.(recSupported) = false ->
      s.(listening) = false /\ s.(recognitionRef) = None).

(** The three ways the ask call fails. *)
Definition ask_fails {A} (out : FetchOutcome A) : Prop :=
  out = None
  \/ (exists r, out = Some r /\ r.(ok) = false)
  \/ (exists r, out = Some r /\ r.(json_body) = None).

(** A fetch whose promise, or whose [json()], rejects. *)
Definition fetch_rejects {A} (out : FetchOutcome A) : Prop :=
  out = None \/ exists r, out = Some r /\ r.(json_body) = None.

(** What the refresh of the conversation list leaves as the list, and the
    setter call it makes, given the outcome of its fetch and the list
    before. *)
Definition refresh_result (out : FetchOutcome (list Conversation))
    (old : list Conversation) : list Conversation * list Effect :=
  match out with
  | Some {| json_body := Some l |} => (l, [SetConversations l])
  | _ => (old, [])
  end.

(** ** Sample inputs *)

Definition full_platform : Platform :=
  {| recSupported := true; synthSupported := true; has_getUserMedia := true |}.

Definition bare_platform : Platform :=
  {| recSupported := false; synthSupported := false;
     has_getUserMedia := false |}.

(** Every request is rejected. *)
Definition offline : Outcomes :=
  {| conversations_get := None;
     conversations_post := fun _ => None;
     messages_get := fun _ => None;
     ask_post := fun _ _ => None;
     getUserMedia_resolves := true; rec_start_throws := false;
     synth_cancel_throws := false; synth_speak_throws := false |}.

(** The backend answers the ask call with [r], knows no conversation and
    no message. *)
Definition replying (r : jsstring) : Outcomes :=
  {| conversations_get := Some {| ok := true; json_body := Some [] |};
     conversations_post :=
       fun t => Some {| ok := true;
                        json_body := Some {| id := js "c1"; title := t;
                                             last_message_at := None |} |};
     messages_get :=
       fun _ => Some {| ok := true; json_body := Some (AnArray []) |};
     ask_post :=
       fun _ _ => Some {| ok := true;
                          json_body := Some {| reply := r |} |};
     getUserMedia_resolves := true; rec_start_throws := false;
     synth_cancel_throws := false; synth_speak_throws := false |}.


Definition typed (t : string) : State := with_input (js t) initial_state.

Definition anna : Voice := {| name := js "Anna"; lang := js "de-DE" |}.

Definition google_uk_female : Voice :=
  {| name := js "Google UK English Female"; lang := js "en-GB" |}.

Definition google_us : Voice :=
  {| name := js "Google US English"; lang := js "en-US" |}.

(** ** What the view offers

    The parts of the JSX that decide which handlers the user can reach. *)

(** [MessageBubble]: [isUser]. *)
Definition isUser (m : Message) : bool :=
  match m.(role) with user => true | assistant => false end.

(** The Speak button of a bubble: [!isUser && voiceEnabled], where the
    bubble is given [voiceEnabled && synthSupported]. *)
Definition speak_button_shown (p : Platform) (s : State) (m : Message)
    : bool :=
  negb (isUser m) && (s.(voiceEnabled) && p.(synthSupported)).

(** The Send button: [disabled={loading || !input.trim()}]. *)
Definition send_disabled (s : State) : bool :=
  s.(loading) || falsy (trim s.(input)).

(** [Sidebar]: the label of an entry, [c.title || 'Conversation']. *)
Definition sidebar_label (c : Conversation) : jsstring :=
  match c.(title) with
  | Some t => if falsy t then js "Conversation" else t
  | None => js "Conversation"
  end.

(** Whether the view, rendered from [s], lets event [e] happen: the voice
    checkbox and both Speak toggles are rendered under [recSupported] only,
    a bubble's Speak button under [speak_button_shown], the entries of the
    sidebar from the conversation list, and a disabled Send button does not
    click. *)
Definition offered (p : Platform) (s : State) (e : Event) : bool :=
  match e with
  | VoiceCheckbox _ | ClickSpeak => p.(recSupported)
  | ClickSend => negb (send_disabled s)
  | ClickBubble t =>
      existsb (fun m => speak_button_shown p s m
                        && jsstring_eqb m.(content) t) s.(messages)
  | ClickConversation i =>
      existsb (fun c => jsstring_eqb c.(id) i) s.(conversations)
  | VoicesChanged _ => p.(synthSupported)
  | RecognitionResult _ | RecognitionEnd | RecognitionError _ =>
      match s.(recognitionRef) with Some _ => true | None => false end
  | Mount | PermissionState _ | InputChange _ | KeyDown _ | ClickNew => true
  end.

(** A session in which every event is one the view offers at that point. *)
Fixpoint ui_driven (v : Variant) (p : Platform)
    (evs : list (Outcomes * Event)) (s : State) : bool :=
  match evs with
  | [] => true
  | (o, e) :: evs' =>
      offered p s e && ui_driven v p evs' (state_of (handle v p o e s))
  end.

(** A computation that keeps a property of the state. *)
Definition preserves {A} (P : State -> Prop) (m : M A) : Prop :=
  forall s, P s -> P (state_of (m s)).

(** A computation all of whose effects pass the test [f]. *)
Definition emits_only {A} (f : Effect -> bool) (m : M A) : Prop :=
  forall s, forallb f (effects_of (m s)) = true.

(** An ask request carries a text that is not empty and is its own trim. *)
Definition well_formed_ask (e : Effect) : bool :=
  match e with
  | Fetch (PostAsk m _) => negb (falsy m) && jsstring_eqb (trim m) m
  | _ => true
  end.

(** Speech synthesis is used only where it is supported, and every
    utterance has rate, pitch and volume 1. *)
Definition synthesis_in_order (p : Platform) (e : Effect) : bool :=
  match e with
  | SynthCancel => p.(synthSupported)
  | SynthSpeak u =>
      p.(synthSupported)
      && ((u.(rate) =? 1) && (u.(pitch) =? 1) && (u.(volume) =? 1))%Z
  | _ => true
  end.

(** The microphone is asked for only where [getUserMedia] exists, and a
    recognition object is constructed, started or stopped only where
    recognition is supported. *)
Definition microphone_in_order (p : Platform) (e : Effect) : bool :=
  match e with
  | GetUserMedia => p.(has_getUserMedia) && p.(recSupported)
  | NewRecognition _ | RecStart _ | RecStop _ => p.(recSupported)
  | _ => true
  end.

(** ** The first version of the component

    The copy of [Chat] without conversations and without voice: three state
    cells, one request. *)

Module Basic.

Record State := {
  messages : list Message;
  input : jsstring;
  loading : bool
}.

Definition initial_state : State :=
  {| messages := [{| role := assistant; content := greeting ChatJsx |}];
     input := []; loading := false |}.

Inductive Effect :=
| SetMessages (v : list Message)
| SetInput (v : jsstring)
| SetLoading (v : bool)
| Fetch (message : jsstring)
| PreventDefault.

Definition M (A : Type) := State -> Completion A * State * list Effect.

Definition ret {A} (a : A) : M A := fun s => (Normal a, s, []).

Definition throw {A} (e : Error) : M A := fun s => (Thrown e, s, []).

Definition bind {A B} (m : M A) (k : A -> M B) : M B :=
  fun s =>
    match m s with
    | (Normal a, s1, l1) =>
        match k a s1 with
        | (r, s2, l2) => (r, s2, l1 ++ l2)
        end
    | (Thrown e, s1, l1) => (Thrown e, s1, l1)
    end.

Declare Scope basic_scope.
Notation "x <- m ;; k" := (bind m (fun x => k))
  (at level 61, m at next level, right associativity) : basic_scope.
Notation "m ;; k" := (bind m (fun _ => k))
  (at level 61, right associativity) : basic_scope.
#[local] Open Scope basic_scope.

Definition try_catch {A} (body : M A) (handler : Error -> M A) : M A :=
  fun s =>
    match body s with
    | (Normal a, s1, l1) => (Normal a, s1, l1)
    | (Thrown e, s1, l1) =>
        match handler e s1 with
        | (r, s2, l2) => (r, s2, l1 ++ l2)
        end
    end.

Definition try_finally {A} (body : M A) (final : M unit) : M A :=
  fun s =>
    match body s with
    | (r, s1, l1) =>
        match final s1 with
        | (Normal _, s2, l2) => (r, s2, l1 ++ l2)
        | (Thrown e, s2, l2) => (Thrown e, s2, l1 ++ l2)
        end
    end.

Definition get : M State := fun s => (Normal s, s, []).

Definition perform (e : Effect) : M unit := fun s => (Normal tt, s, [e]).

Definition when (b : bool) (m : M unit) : M unit := if b then m else ret tt.

Definition setMessages (v : list Message) : M unit :=
  fun s => (Normal tt,
            {| messages := v; input := s.(input); loading := s.(loading) |},
            [SetMessages v]).

Definition updateMessages (f : list Message -> list Message) : M unit :=
  fun s => setMessages (f s.(messages)) s.

Definition setInput (v : jsstring) : M unit :=
  fun s => (Normal tt,
            {| messages := s.(messages); input := v;
               loading := s.(loading) |},
            [SetInput v]).

Definition setLoading (v : bool) : M unit :=
  fun s => (Normal tt,
            {| messages := s.(messages); input := s.(input); loading := v |},
            [SetLoading v]).

Definition fetch {A} (message : jsstring) (out : FetchOutcome A)
    : M (Response A) :=
  perform (Fetch message) ;;
  match out with
  | None => throw NetworkError
  | Some res => ret res
  end.

Definition json {A} (res : Response A) : M A :=
  match res.(json_body) with
  | None => throw ParseError
  | Some data => ret data
  end.

(** [ask] is what the backend answers to the one request there is. *)
Definition sendMessage (ask : jsstring -> FetchOutcome AskData) : M unit :=
  s <- get ;;
  let text := trim s.(input) in
  if falsy text || s.(loading) then ret tt else
  let next := s.(messages) ++ [{| role := user; content := text |}] in
  setMessages next ;;
  setInput [] ;;
  setLoading true ;;
  try_finally
    (try_catch
       (res <- fetch text (ask text) ;;
        when (negb res.(ok)) (throw RequestFailed) ;;
        data <- json res ;;
        updateMessages
          (fun prev =>
             prev ++ [{| role := assistant; content := data.(reply) |}]))
       (fun _ =>
          updateMessages
            (fun prev =>
               prev ++ [{| role := assistant; content := apology |}])))
    (setLoading false).

Definition handleKey (ask : jsstring -> FetchOutcome AskData)
    (e : KeyboardEvent) : M unit :=
  if jsstring_eqb e.(key) (js "Enter") && negb e.(shiftKey)
  then perform PreventDefault ;; sendMessage ask
  else ret tt.

End Basic.




(** * Properties *)

(** ** Strings *)

Lemma jsstring_eqb_eq (a b : jsstring) : jsstring_eqb a b = true <-> a = b.
Proof.
  unfold jsstring_eqb.
  destruct (list_eq_dec N.eq_dec a b); split; congruence.
Qed.

Lemma jsstring_eqb_refl (a : jsstring) : jsstring_eqb a a = true.
Proof. now apply jsstring_eqb_eq. Qed.

Lemma jsstring_eqb_neq (a b : jsstring) : a <> b -> jsstring_eqb a b = false.
Proof.
  intros H. destruct (jsstring_eqb a b) eqn:E; [|reflexivity].
  now apply jsstring_eqb_eq in E.
Qed.

Lemma falsy_false (s : jsstring) : s <> [] -> falsy s = false.
Proof. destruct s; [congruence | reflexivity]. Qed.

Lemma trimStart_head (s : jsstring) :
  match trimStart s with
  | c :: _ => is_white_space c = false
  | [] => True
  end.
Proof.
  induction s as [|c s IH]; simpl; [exact I|].
  destruct (is_white_space c) eqn:E; [exact IH | exact E].
Qed.

(** ** Running the monad *)

Ltac unfold_m :=
  unfold bind, try_catch, try_finally, fetch, json, when, ret, throw,
    perform, get, updateMessages, updateConversations, setMessages,
    setConversations, setActiveId, setInput, setLoading, setListening,
    setMicPermission, setVoiceStatus, setVoiceEnabled, set_recognitionRef,
    loadVoices.

(** [speakText] always completes normally and leaves the state alone; what
    it performs depends on the cached voices only. *)
Lemma speakText_pure v p o t s :
  speakText v p o t s = (Normal tt, s, snd (speakText v p o t s)).
Proof.
  unfold speakText.
  destruct (synthSupported p); simpl; [|reflexivity].
  unfold_m; simpl.
  destruct (synth_cancel_throws o); simpl; [reflexivity|].
  destruct (synth_speak_throws o); reflexivity.
Qed.

Lemma speakText_voices v p o t s1 s2 :
  s1.(voicesRef) = s2.(voicesRef) ->
  snd (speakText v p o t s1) = snd (speakText v p o t s2).
Proof.
  intros H. unfold speakText.
  destruct (synthSupported p); simpl; [|reflexivity].
  unfold_m; simpl. rewrite H.
  destruct (synth_cancel_throws o); simpl; [reflexivity|].
  destruct (synth_speak_throws o); reflexivity.
Qed.

(** ** [sendMessage] *)

Lemma sendMessage_skipped v p o s :
  falsy (trim s.(input)) || s.(loading) = true ->
  sendMessage v p o s = (Normal tt, s, []).
Proof.
  intros H. unfold sendMessage, bind, get. simpl. rewrite H. reflexivity.
Qed.

Lemma sendMessage_ask_ok v p o s res r :
  trim s.(input) <> [] ->
  s.(loading) = false ->
  o.(ask_post) (trim s.(input)) s.(activeId) = Some res ->
  res.(ok) = true ->
  res.(json_body) = Some {| reply := r |} ->
  let u := {| role := user; content := trim s.(input) |} in
  let a := {| role := assistant; content := r |} in
  let refresh := refresh_result o.(conversations_get) s.(conversations) in
  sendMessage v p o s =
    (Normal tt,
     with_loading false
       (with_conversations (fst refresh)
          (with_input [] (with_messages (s.(messages) ++ [u; a]) s))),
     [SetMessages (s.(messages) ++ [u]); SetInput []; SetLoading true;
      Fetch (PostAsk (trim s.(input)) s.(activeId));
      SetMessages (s.(messages) ++ [u; a]); Fetch GetConversations]
     ++ snd refresh
     ++ (if s.(voiceEnabled) then snd (speakText v p o r s) else [])
     ++ [SetLoading false]).
Proof.
  intros Htext Hload Hask Hok Hbody u a refresh.
  unfold sendMessage, bind at 1, get.
  rewrite (falsy_false Htext), Hload. simpl.
  unfold_m. simpl. rewrite Hask. simpl. rewrite Hok, Hbody. simpl.
  rewrite <- app_assoc. simpl.
  subst refresh. unfold refresh_result.
  destruct s as [cs aid ms inp ld ve li mp vs rr vr]; simpl in *.
  destruct (conversations_get o) as [[okl [l|]]|]; simpl;
    (destruct ve; simpl;
     [ match goal with
       | |- context [speakText v p o r ?s1] =>
           rewrite (speakText_pure v p o r s1);
           rewrite (@speakText_voices v p o r s1
                      {| conversations := cs; activeId := aid; messages := ms;
                         input := inp; loading := ld; voiceEnabled := true;
                         listening := li; micPermission := mp;
                         voiceStatus := vs; recognitionRef := rr;
                         voicesRef := vr |}) by reflexivity
       end; reflexivity
     | reflexivity ]).
Qed.

Lemma sendMessage_ask_failed v p o s :
  trim s.(input) <> [] ->
  s.(loading) = false ->
  ask_fails (o.(ask_post) (trim s.(input)) s.(activeId)) ->
  let u := {| role := user; content := trim s.(input) |} in
  let a := {| role := assistant; content := apology |} in
  sendMessage v p o s =
    (Normal tt,
     with_loading false
       (with_input [] (with_messages (s.(messages) ++ [u; a]) s)),
     [SetMessages (s.(messages) ++ [u]); SetInput []; SetLoading true;
      Fetch (PostAsk (trim s.(input)) s.(activeId));
      SetMessages (s.(messages) ++ [u; a]); SetLoading false]).
Proof.
  intros Htext Hload Hfail u a.
  unfold sendMessage, bind at 1, get.
  rewrite (falsy_false Htext), Hload. simpl.
  unfold_m. simpl.
  destruct s as [cs aid ms inp ld ve li mp vs rr vr]; simpl in *.
  destruct Hfail as [E | [(res & E & H) | (res & E & H)]]; rewrite E; simpl.
  - rewrite <- app_assoc. reflexivity.
  - rewrite H. simpl. rewrite <- app_assoc. reflexivity.
  - rewrite H. destruct (ok res); simpl; rewrite <- app_assoc; reflexivity.
Qed.

(** Whatever the outside answers, a send that goes out completes normally,
    leaves the history extended by the user message and one assistant
    message, and starts with the optimistic update followed by the ask
    request. *)
Lemma sendMessage_sent v p o s :
  trim s.(input) <> [] ->
  s.(loading) = false ->
  let u := {| role := user; content := trim s.(input) |} in
  exists a s' rest,
    sendMessage v p o s =
      (Normal tt, s',
       SetMessages (s.(messages) ++ [u]) :: SetInput [] :: SetLoading true
         :: Fetch (PostAsk (trim s.(input)) s.(activeId)) :: rest)
    /\ s'.(messages) = s.(messages) ++ [u; a]
    /\ a.(role) = assistant
    /\ s'.(input) = []
    /\ s'.(loading) = false.
Proof.
  intros Htext Hload u.
  destruct (o.(ask_post) (trim s.(input)) s.(activeId))
    as [[[] [[r]|]]|] eqn:Hask.
  - eexists _, _, _. split.
    + eapply sendMessage_ask_ok;
        [assumption | assumption | exact Hask | reflexivity | reflexivity].
    + simpl. repeat split; reflexivity.
  - eexists _, _, _. split.
    + apply sendMessage_ask_failed; auto.
      right; right. eexists; split; [exact Hask | reflexivity].
    + simpl. repeat split; reflexivity.
  - eexists _, _, _. split.
    + apply sendMessage_ask_failed; auto.
      right; left. eexists; split; [exact Hask | reflexivity].
    + simpl. repeat split; reflexivity.
  - eexists _, _, _. split.
    + apply sendMessage_ask_failed; auto.
      right; left. eexists; split; [exact Hask | reflexivity].
    + simpl. repeat split; reflexivity.
  - eexists _, _, _. split.
    + apply sendMessage_ask_failed; auto. now left.
    + simpl. repeat split; reflexivity.
Qed.

(** C1. With a non-empty trimmed input and [loading] false, [sendMessage]
    first sets the history to the old one followed by one user message whose
    content is the trimmed input, clears the input and sets [loading], and
    only then issues the ask request; at completion the history is the old
    one, that single user message and one assistant message.  With an empty
    trimmed input, or with [loading] true, it changes no state and performs
    nothing. *)
Theorem sendMessage_optimistic_append v p o s :
  let u := {| role := user; content := trim s.(input) |} in
  (trim s.(input) <> [] -> s.(loading) = false ->
   exists a s' rest,
     sendMessage v p o s =
       (Normal tt, s',
        SetMessages (s.(messages) ++ [u]) :: SetInput [] :: SetLoading true
          :: Fetch (PostAsk (trim s.(input)) s.(activeId)) :: rest)
     /\ s'.(messages) = s.(messages) ++ [u; a]
     /\ a.(role) = assistant
     /\ s'.(input) = [])
  /\ (trim s.(input) = [] \/ s.(loading) = true ->
      sendMessage v p o s = (Normal tt, s, [])).
Proof.
  intros u. split.
  - intros Htext Hload.
    destruct (sendMessage_sent v p o s Htext Hload)
      as (a & s' & rest & E & Hm & Ha & Hi & _).
    exists a, s', rest. auto.
  - intros [H | H]; apply sendMessage_skipped; rewrite H; simpl; auto.
    apply orb_true_r.
Qed.

Lemma sendMessage_optimistic_append_witness :
  (exists a s' rest,
     sendMessage ChatJsx full_platform (replying (js "Hi there"))
                 (typed "  Hello ") =
       (Normal tt, s',
        SetMessages [{| role := user; content := js "Hello" |}]
          :: SetInput [] :: SetLoading true
          :: Fetch (PostAsk (js "Hello") None) :: rest)
     /\ s'.(messages) = [{| role := user; content := js "Hello" |}; a]
     /\ a.(role) = assistant
     /\ s'.(input) = [])
  /\ sendMessage ChatJsx full_platform (replying (js "Hi there"))
                 (typed "   ") = (Normal tt, typed "   ", []).
Proof.
  split.
  - apply (sendMessage_optimistic_append ChatJsx full_platform
             (replying (js "Hi there")) (typed "  Hello "));
      [ vm_compute; discriminate | reflexivity ].
  - apply (sendMessage_optimistic_append ChatJsx full_platform
             (replying (js "Hi there")) (typed "   ")).
    left. reflexivity.
Defined.



(** ** [speakText] *)

Lemma speakText_unsupported v p o t s :
  p.(synthSupported) = false -> speakText v p o t s = (Normal tt, s, []).
Proof. intros H. unfold speakText. rewrite H. reflexivity. Qed.

Lemma speakText_supported v p o t s :
  p.(synthSupported) = true ->
  speakText v p o t s =
    (Normal tt, s,
     SynthCancel
       :: (if o.(synth_cancel_throws) then []
           else [SynthSpeak {| text := t;
                               voice := preferred_voice v s.(voicesRef);
                               rate := 1; pitch := 1; volume := 1 |}])).
Proof.
  intros H. unfold speakText. rewrite H. simpl. unfold_m. simpl.
  destruct (synth_cancel_throws o); simpl; [reflexivity|].
  destruct (preferred_voice v (voicesRef s));
    destruct (synth_speak_throws o); reflexivity.
Qed.

(** The voice is the first cached voice that passes both tests, else the
    first cached voice, else none. *)
Lemma preferred_voice_spec v voices :
  let good vc := test_i [js "en-US"; js "en_GB"] vc.(lang)
                 && test_i (voice_name_alternatives v) vc.(name) in
  match find good voices with
  | Some vc => preferred_voice v voices = Some vc
  | None => preferred_voice v voices = hd_error voices
  end.
Proof.
  intros good. unfold preferred_voice. fold good.
  destruct (find good voices); [reflexivity|].
  destruct voices; reflexivity.
Qed.

(** ** Order of the success steps of [sendMessage] *)

Lemma position_app_false f l1 l2 :
  forallb (fun e => negb (f e)) l1 = true ->
  position f (l1 ++ l2) =
    match position f l2 with
    | Some n => Some (List.length l1 + n)
    | None => None
    end.
Proof.
  induction l1 as [|e l1 IH]; simpl; intros H.
  - destruct (position f l2); reflexivity.
  - apply andb_true_iff in H. destruct H as [He Hl].
    apply negb_true_iff in He. rewrite He, (IH Hl).
    destruct (position f l2); reflexivity.
Qed.

Lemma is_append_of_last m l :
  is_append_of m (SetMessages (l ++ [m])) = true.
Proof.
  simpl. rewrite rev_unit. destruct m as [[] c]; simpl;
    apply jsstring_eqb_refl.
Qed.

Lemma is_append_of_other_role m m' l :
  m.(role) <> m'.(role) ->
  is_append_of m (SetMessages (l ++ [m'])) = false.
Proof.
  intros H. simpl. rewrite rev_unit.
  destruct m as [[] c], m' as [[] c']; simpl in *; congruence.
Qed.






(** ** [loadMessages] and [selectConversation] *)

Lemma loadMessages_result v o cid s :
  exists h,
    loadMessages v o cid s =
      (Normal tt, with_messages h s,
       [Fetch (GetMessages cid); SetMessages h])
    /\ h <> []
    /\ forall s2, (state_of (loadMessages v o cid s2)).(messages) = h.
Proof.
  unfold loadMessages, state_of. unfold_m. simpl.
  destruct (messages_get o cid) as [[okm [[|[|m l]]|]]|]; simpl;
    eexists; (split; [reflexivity | split; [discriminate | reflexivity]]).
Qed.



(** [loadMessages] does not look at [res.ok]: of a response that is not OK
    the body is treated as any other. *)
Lemma loadMessages_ignores_status v o cid s okm b :
  o.(messages_get) cid = Some {| ok := okm; json_body := b |} ->
  loadMessages v o cid s =
    loadMessages v
      {| conversations_get := o.(conversations_get);
         conversations_post := o.(conversations_post);
         messages_get := fun _ => Some {| ok := negb okm; json_body := b |};
         ask_post := o.(ask_post);
         getUserMedia_resolves := o.(getUserMedia_resolves);
         rec_start_throws := o.(rec_start_throws);
         synth_cancel_throws := o.(synth_cancel_throws);
         synth_speak_throws := o.(synth_speak_throws) |}
      cid s.
Proof.
  intros E. unfold loadMessages. unfold_m. simpl. rewrite E. reflexivity.
Qed.



(** ** [handleKey] *)

(** C6. On Enter without Shift, [handleKey] suppresses the default action
    and then runs [sendMessage]: it completes as [sendMessage] does from the
    same state, leaves the state [sendMessage] leaves, and performs
    [PreventDefault] followed by what [sendMessage] performs.  On Enter with
    Shift it does nothing at all: [sendMessage] is not run and the default
    action, the insertion of the newline, is not suppressed. *)
Theorem handleKey_enter v p o e s :
  e.(key) = js "Enter" ->
  (e.(shiftKey) = false ->
   let sent := sendMessage v p o s in
   handleKey v p o e s =
     (completion_of sent, state_of sent, PreventDefault :: effects_of sent))
  /\ (e.(shiftKey) = true -> handleKey v p o e s = (Normal tt, s, [])).
Proof.
  intros Hk. unfold handleKey. rewrite Hk, jsstring_eqb_refl. split.
  - intros Hs. rewrite Hs. simpl. unfold bind, perform.
    destruct (sendMessage v p o s) as [[r s'] l]. reflexivity.
  - intros Hs. rewrite Hs. reflexivity.
Qed.

Lemma handleKey_enter_witness :
  effects_of
    (handleKey ChatJsx full_platform offline
       {| key := js "Enter"; shiftKey := false |} (typed "Hello"))
    = PreventDefault
        :: effects_of (sendMessage ChatJsx full_platform offline
                         (typed "Hello"))
  /\ handleKey ChatJsx full_platform offline
       {| key := js "Enter"; shiftKey := true |} (typed "Hello")
     = (Normal tt, typed "Hello", []).
Proof.
  split.
  - destruct (@handleKey_enter ChatJsx full_platform offline
                {| key := js "Enter"; shiftKey := false |} (typed "Hello"))
      as [H _]; [reflexivity|].
    rewrite H by reflexivity. reflexivity.
  - apply (@handleKey_enter ChatJsx full_platform offline
             {| key := js "Enter"; shiftKey := true |} (typed "Hello"));
      reflexivity.
Defined.

(** Any other key is left to the browser. *)
Lemma handleKey_other_key v p o e s :
  e.(key) <> js "Enter" -> handleKey v p o e s = (Normal tt, s, []).
Proof.
  intros H. unfold handleKey. rewrite (jsstring_eqb_neq H). reflexivity.
Qed.

(** ** Failures of the conversation requests *)

(** The start-up effect catches whatever its requests throw, the one of
    [createConversation] included, and falls back to the greeting. *)
Lemma init_never_throws v o s :
  exists s' l, init v o s = (Normal tt, s', l).
Proof.
  unfold init, createConversation, loadMessages. unfold_m. simpl.
  destruct (conversations_get o) as [[okc [[|c cs]|]]|]; simpl;
    try (eexists _, _; reflexivity).
  - destruct (conversations_post o None) as [[okp [d|]]|]; simpl;
      try (eexists _, _; reflexivity).
    destruct (messages_get o (id d)) as [[okm [[|[|m l]]|]]|]; simpl;
      eexists _, _; reflexivity.
  - destruct (messages_get o (id c)) as [[okm [[|[|m l]]|]]|]; simpl;
      eexists _, _; reflexivity.
Qed.

Lemma init_offline v s :
  init v offline s =
    (Normal tt, with_messages [greeting_message v] s,
     [Fetch GetConversations; SetMessages [greeting_message v]]).
Proof. reflexivity. Qed.

(** C5, at the failing input.  With the backend unreachable,
    [createConversation] throws the rejection of its fetch, and so does
    [newConversation], the handler of the New button, which calls it outside
    any [try]: the exception leaves the handler, the state is untouched, and
    neither a substitute message nor a status text is set. *)
Theorem newConversation_failure_unhandled v s new_title :
  createConversation offline new_title s =
    (Thrown NetworkError, s, [Fetch (PostConversation new_title)])
  /\ newConversation v offline s =
    (Thrown NetworkError, s, [Fetch (PostConversation None)]).
Proof. split; reflexivity. Qed.

(** ** Choice of the voice *)

(** C7, at the failing input.  With the cached voices [anna] (de-DE) and
    [google_uk_female] (en-GB, "Google UK English Female"), the pattern on
    the locale, which knows GB with an underscore only, rejects the second
    voice, and the utterance is spoken with the first one. *)
Theorem speakText_en_GB_hyphen_not_preferred v :
  test_i [js "en-US"; js "en_GB"] google_uk_female.(lang) = false
  /\ test_i (voice_name_alternatives v) google_uk_female.(name) = true
  /\ speakText v full_platform offline (js "Hi there")
       (with_voicesRef [anna; google_uk_female] initial_state) =
     (Normal tt, with_voicesRef [anna; google_uk_female] initial_state,
      [SynthCancel;
       SynthSpeak {| text := js "Hi there"; voice := Some anna;
                     rate := 1; pitch := 1; volume := 1 |}]).
Proof. destruct v; repeat split; reflexivity. Qed.

(** The same catalogue with the US voice instead: the second voice is
    chosen. *)
Lemma speakText_en_US_preferred v :
  preferred_voice v [anna; google_us] = Some google_us.
Proof. destruct v; reflexivity. Qed.

(** What [speakText] does in general: nothing without synthesis; otherwise
    it cancels, then speaks an utterance of the text with the voice
    [preferred_voice] gives and rate, pitch and volume 1. *)
Lemma speakText_policy v p o t s :
  (p.(synthSupported) = false -> speakText v p o t s = (Normal tt, s, []))
  /\ (p.(synthSupported) = true -> o.(synth_cancel_throws) = false ->
      speakText v p o t s =
        (Normal tt, s,
         [SynthCancel;
          SynthSpeak {| text := t; voice := preferred_voice v s.(voicesRef);
                        rate := 1; pitch := 1; volume := 1 |}])).
Proof.
  split.
  - apply speakText_unsupported.
  - intros H Hc. rewrite speakText_supported, Hc by assumption. reflexivity.
Qed.

(** ** Computations that leave speech recognition alone *)

Lemma quiet_ret A (a : A) : quiet (ret a).
Proof. intros s. simpl. auto. Qed.

Lemma quiet_throw A e : quiet (@throw A e).
Proof. intros s. simpl. auto. Qed.

Lemma quiet_get : quiet get.
Proof. intros s. simpl. auto. Qed.

Lemma quiet_bind A B (m : M A) (k : A -> M B) :
  quiet m -> (forall a, quiet (k a)) -> quiet (bind m k).
Proof.
  intros Hm Hk s. unfold bind. specialize (Hm s).
  destruct (m s) as [[[a|e] s1] l1]; [|exact Hm].
  specialize (Hk a s1). destruct (k a s1) as [[r s2] l2].
  destruct Hm as (R1 & L1 & F1), Hk as (R2 & L2 & F2).
  rewrite forallb_app, F1, F2. repeat split; [congruence | auto].
Qed.

Lemma quiet_try_catch A (m : M A) (h : Error -> M A) :
  quiet m -> (forall e, quiet (h e)) -> quiet (try_catch m h).
Proof.
  intros Hm Hh s. unfold try_catch. specialize (Hm s).
  destruct (m s) as [[[a|e] s1] l1]; [exact Hm|].
  specialize (Hh e s1). destruct (h e s1) as [[r s2] l2].
  destruct Hm as (R1 & L1 & F1), Hh as (R2 & L2 & F2).
  rewrite forallb_app, F1, F2. repeat split; [congruence | auto].
Qed.

Lemma quiet_try_finally A (m : M A) (f : M unit) :
  quiet m -> quiet f -> quiet (try_finally m f).
Proof.
  intros Hm Hf s. unfold try_finally. specialize (Hm s).
  destruct (m s) as [[r s1] l1].
  specialize (Hf s1). destruct (f s1) as [[[u|e] s2] l2];
    destruct Hm as (R1 & L1 & F1), Hf as (R2 & L2 & F2);
    rewrite forallb_app, F1, F2; (repeat split; [congruence | auto]).
Qed.

Lemma quiet_when b (m : M unit) : quiet m -> quiet (when b m).
Proof. destruct b; [auto | intros _; apply quiet_ret]. Qed.

Lemma quiet_perform e :
  touches_recognition e = false -> quiet (perform e).
Proof. intros H s. simpl. rewrite H. auto. Qed.

Lemma quiet_setConversations x : quiet (setConversations x).
Proof. intros s. simpl. auto. Qed.

Lemma quiet_updateConversations f : quiet (updateConversations f).
Proof. intros s. simpl. auto. Qed.

Lemma quiet_setActiveId x : quiet (setActiveId x).
Proof. intros s. simpl. auto. Qed.

Lemma quiet_setMessages x : quiet (setMessages x).
Proof. intros s. simpl. auto. Qed.

Lemma quiet_updateMessages f : quiet (updateMessages f).
Proof. intros s. simpl. auto. Qed.

Lemma quiet_setInput x : quiet (setInput x).
Proof. intros s. simpl. auto. Qed.

Lemma quiet_setLoading x : quiet (setLoading x).
Proof. intros s. simpl. auto. Qed.

Lemma quiet_setVoiceEnabled x : quiet (setVoiceEnabled x).
Proof. intros s. simpl. auto. Qed.

Lemma quiet_setMicPermission x : quiet (setMicPermission x).
Proof. intros s. simpl. auto. Qed.

Lemma quiet_setVoiceStatus x : quiet (setVoiceStatus x).
Proof. intros s. simpl. auto. Qed.

Lemma quiet_setListening_false : quiet (setListening false).
Proof. intros s. simpl. repeat split; auto. discriminate. Qed.

Lemma quiet_loadVoices x : quiet (loadVoices x).
Proof. intros s. simpl. auto. Qed.

Lemma quiet_json A (res : Response A) : quiet (json res).
Proof.
  unfold json. destruct (json_body res);
    [apply quiet_ret | apply quiet_throw].
Qed.

Lemma quiet_fetch A r (out : FetchOutcome A) : quiet (fetch r out).
Proof.
  unfold fetch. apply quiet_bind; [now apply quiet_perform|].
  intros _. destruct out; [apply quiet_ret | apply quiet_throw].
Qed.

Create HintDb quiet.

#[local] Hint Resolve quiet_ret quiet_throw quiet_get quiet_when
  quiet_setConversations quiet_updateConversations quiet_setActiveId
  quiet_setMessages quiet_updateMessages quiet_setInput quiet_setLoading
  quiet_setVoiceEnabled quiet_setMicPermission quiet_setVoiceStatus
  quiet_setListening_false quiet_loadVoices quiet_json quiet_fetch : quiet.

(** Takes a handler apart along its binds, tries and branches. *)
Ltac quiet_steps :=
  repeat first
    [ solve [auto with quiet]
    | progress cbv zeta
    | apply quiet_bind; [|intros ?]
    | apply quiet_try_catch; [|intros ?]
    | apply quiet_try_finally
    | apply quiet_when
    | apply quiet_perform; reflexivity
    | match goal with
      | |- quiet (if ?b then _ else _) => destruct b
      | |- quiet (match ?x with _ => _ end) => destruct x
      end ].

Lemma quiet_speakText v p o t : quiet (speakText v p o t).
Proof. unfold speakText. quiet_steps. Qed.

Lemma quiet_createConversation o t : quiet (createConversation o t).
Proof. unfold createConversation. quiet_steps. Qed.

Lemma quiet_loadMessages v o cid : quiet (loadMessages v o cid).
Proof. unfold loadMessages. quiet_steps. Qed.

#[local] Hint Resolve quiet_speakText quiet_createConversation
  quiet_loadMessages : quiet.

Lemma quiet_selectConversation v o i : quiet (selectConversation v o i).
Proof. unfold selectConversation. quiet_steps. Qed.

Lemma quiet_newConversation v o : quiet (newConversation v o).
Proof. unfold newConversation. quiet_steps. Qed.

Lemma quiet_init v o : quiet (init v o).
Proof. unfold init. quiet_steps. Qed.

Lemma quiet_sendMessage v p o : quiet (sendMessage v p o).
Proof. unfold sendMessage. quiet_steps. Qed.

#[local] Hint Resolve quiet_sendMessage : quiet.

Lemma quiet_handleKey v p o e : quiet (handleKey v p o e).
Proof. unfold handleKey. quiet_steps. Qed.

Lemma quiet_on_recognition m : quiet m -> quiet (on_recognition m).
Proof. intros H. unfold on_recognition. quiet_steps. Qed.

Lemma quiet_rec_onresult ev : quiet (rec_onresult ev).
Proof. unfold rec_onresult. quiet_steps. Qed.

Lemma quiet_rec_onend : quiet rec_onend.
Proof. unfold rec_onend. quiet_steps. Qed.

Lemma quiet_rec_onerror code : quiet (rec_onerror code).
Proof. unfold rec_onerror. quiet_steps. Qed.

Lemma quiet_ensureMicPermission p o : quiet (ensureMicPermission p o).
Proof. unfold ensureMicPermission. quiet_steps. Qed.

(** ** [toggleListening] and the recognition object *)

Lemma toggleListening_unsupported p o s :
  p.(recSupported) = false ->
  toggleListening p o s =
    (Normal tt,
     with_voiceStatus
       (js "Speech recognition is not supported in this browser.") s,
     [SetVoiceStatus
        (js "Speech recognition is not supported in this browser.")]).
Proof.
  intros H. unfold toggleListening, bind, get. simpl. rewrite H. reflexivity.
Qed.

(** With support, a toggle constructs the object only when the ref is
    empty, leaves it in the ref, and starts or stops nothing else. *)
Lemma toggleListening_supported p o s :
  p.(recSupported) = true ->
  let r := match s.(recognitionRef) with
           | Some r => r
           | None => new_recognition
           end in
  exists s' l',
    toggleListening p o s =
      (Normal tt, s',
       match s.(recognitionRef) with
       | Some _ => l'
       | None => NewRecognition r :: l'
       end)
    /\ s'.(recognitionRef) = Some r
    /\ constructed l' = 0
    /\ forall e, In e l' -> touches_recognition e = true ->
                 e = RecStart r \/ e = RecStop r.
Proof.
  intros H r. subst r.
  unfold toggleListening, ensureMicPermission. unfold_m. simpl. rewrite H.
  simpl.
  destruct (recognitionRef s) as [r|] eqn:Er, (listening s),
    (has_getUserMedia p), (getUserMedia_resolves o), (rec_start_throws o);
    simpl; rewrite ?Er;
    eexists _, _;
    (split; [reflexivity
            | split; [simpl; try rewrite Er; reflexivity
                     | split; [reflexivity|]]]);
    intros e Hin Ht; simpl in Hin;
    repeat (destruct Hin as [<- | Hin]; [try discriminate Ht; auto|]);
    contradiction.
Qed.

Lemma constructed_app l1 l2 :
  constructed (l1 ++ l2) = constructed l1 + constructed l2.
Proof. unfold constructed. now rewrite filter_app, length_app. Qed.

Lemma constructed_untouched l :
  forallb (fun e => negb (touches_recognition e)) l = true ->
  constructed l = 0.
Proof.
  unfold constructed. induction l as [|e l IH]; simpl; [reflexivity|].
  intros H. apply andb_true_iff in H. destruct H as [He Hl].
  destruct e; simpl in *; try discriminate He; auto.
Qed.

Lemma constructed_pos l :
  0 < constructed l -> exists r, In (NewRecognition r) l.
Proof.
  unfold constructed. induction l as [|e l IH]; simpl; [lia|].
  destruct e; simpl; intros H;
    try (destruct (IH H) as (r' & Hr); exists r'; now right).
  eexists. left. reflexivity.
Qed.

Lemma untouched_not_in l e :
  forallb (fun e => negb (touches_recognition e)) l = true ->
  In e l -> touches_recognition e = false.
Proof.
  intros H Hin. rewrite forallb_forall in H.
  apply negb_true_iff. now apply H.
Qed.

(** A quiet computation keeps the invariant. *)
Lemma quiet_invariant A (m : M A) p s l0 :
  quiet m ->
  recognition_invariant p s l0 ->
  recognition_invariant p (state_of (m s)) (l0 ++ effects_of (m s)).
Proof.
  intros Hq [Hr Hu]. specialize (Hq s). unfold state_of, effects_of.
  destruct (m s) as [[c s1] l1]. simpl. destruct Hq as (R & L & F).
  unfold recognition_invariant. rewrite R. split.
  - destruct (recognitionRef s) as [r|].
    + destruct Hr as [Hc He]. split.
      * rewrite constructed_app, Hc, (constructed_untouched _ F). reflexivity.
      * intros e Hin Ht. apply in_app_or in Hin. destruct Hin as [Hin | Hin].
        -- now apply He.
        -- rewrite (untouched_not_in _ _ F Hin) in Ht. discriminate Ht.
    + now rewrite forallb_app, Hr, F.
  - intros Hp. destruct (Hu Hp) as [Hl Hn]. split; [|exact Hn].
    destruct (listening s1); [|reflexivity]. rewrite L in Hl; auto.
Qed.

Lemma toggleListening_invariant p o s l0 :
  recognition_invariant p s l0 ->
  recognition_invariant p (state_of (toggleListening p o s))
    (l0 ++ effects_of (toggleListening p o s)).
Proof.
  intros Hinv. destruct (recSupported p) eqn:Hp.
  - destruct (toggleListening_supported p o s Hp) as (s' & l' & E & R & C & T).
    destruct Hinv as [Hr _]. rewrite E. unfold state_of, effects_of. simpl.
    unfold recognition_invariant. rewrite R, Hp.
    split; [|discriminate].
    destruct (recognitionRef s) as [r|].
    + destruct Hr as [Hc He]. split.
      * rewrite constructed_app, Hc, C. reflexivity.
      * intros e Hin Ht. apply in_app_or in Hin. destruct Hin as [Hin | Hin].
        -- now apply He.
        -- right. now apply T.
    + split.
      * rewrite constructed_app, (constructed_untouched _ Hr).
        change (constructed (NewRecognition new_recognition :: l'))
          with (S (constructed l')).
        rewrite C. reflexivity.
      * intros e Hin Ht. apply in_app_or in Hin. destruct Hin as [Hin | Hin].
        -- rewrite (untouched_not_in _ _ Hr Hin) in Ht. discriminate Ht.
        -- destruct Hin as [<- | Hin]; [now left | right; now apply T].
  - rewrite (toggleListening_unsupported p o s Hp).
    unfold state_of, effects_of. simpl.
    destruct Hinv as [Hr Hu]. unfold recognition_invariant. simpl. split.
    + destruct (recognitionRef s) as [r|].
      * destruct Hr as [Hc He]. split.
        -- rewrite constructed_app, Hc. reflexivity.
        -- intros e Hin Ht. apply in_app_or in Hin.
           destruct Hin as [Hin | [<- | []]]; [now apply He | discriminate Ht].
      * now rewrite forallb_app, Hr.
    + exact Hu.
Qed.

Lemma handle_invariant v p o e s l0 :
  recognition_invariant p s l0 ->
  recognition_invariant p (state_of (handle v p o e s))
    (l0 ++ effects_of (handle v p o e s)).
Proof.
  intros Hinv.
  destruct e; cbn [handle];
    try (now apply toggleListening_invariant);
    (apply quiet_invariant; [|exact Hinv]);
    auto using quiet_init, quiet_when, quiet_loadVoices,
      quiet_setMicPermission, quiet_setInput, quiet_handleKey,
      quiet_sendMessage, quiet_newConversation, quiet_selectConversation,
      quiet_setVoiceEnabled, quiet_speakText, quiet_on_recognition,
      quiet_rec_onresult, quiet_rec_onend, quiet_rec_onerror.
Qed.

Lemma run_invariant v p evs :
  forall s l0,
    recognition_invariant p s l0 ->
    recognition_invariant p (fst (run v p evs s))
      (l0 ++ snd (run v p evs s)).
Proof.
  induction evs as [|[o e] evs IH]; intros s l0 Hinv; simpl.
  - now rewrite app_nil_r.
  - pose proof (handle_invariant v o e Hinv) as Hstep.
    unfold state_of, effects_of in Hstep.
    destruct (handle v p o e s) as [[c s1] l1]. simpl in Hstep.
    specialize (IH s1 (l0 ++ l1) Hstep).
    destruct (run v p evs s1) as [s2 l2]. simpl in *.
    now rewrite app_assoc.
Qed.

Lemma initial_invariant p : recognition_invariant p initial_state [].
Proof. split; [reflexivity | auto]. Qed.

(** C8. Without support for speech recognition a call of [toggleListening]
    only sets the status text: [listening] keeps its value, the ref stays as
    it is and no recognition object is constructed; and in a whole session
    without support, whatever the events and the answers of the outside,
    [listening] is never true and no object is ever constructed.  In any
    session at all, at most one recognition object is constructed, and every
    start and stop is made on that object, which the ref still holds. *)
Theorem toggleListening_single_instance :
  (forall p o s,
     p.(recSupported) = false ->
     toggleListening p o s =
       (Normal tt,
        with_voiceStatus
          (js "Speech recognition is not supported in this browser.") s,
        [SetVoiceStatus
           (js "Speech recognition is not supported in this browser.")]))
  /\ (forall v p evs,
        p.(recSupported) = false ->
        let session := run v p evs initial_state in
        (fst session).(listening) = false
        /\ (fst session).(recognitionRef) = None
        /\ constructed (snd session) = 0)
  /\ (forall v p evs,
        let session := run v p evs initial_state in
        constructed (snd session) <= 1
        /\ forall r,
             In (RecStart r) (snd session) \/ In (RecStop r) (snd session) ->
             In (NewRecognition r) (snd session)
             /\ (fst session).(recognitionRef) = Some r).
Proof.
  split; [exact toggleListening_unsupported|]. split.
  - intros v p evs Hp session.
    pose proof (run_invariant v evs (initial_invariant p)) as [Hr Hu].
    simpl in Hr, Hu. fold session in Hr, Hu.
    destruct (Hu Hp) as [Hl Hn]. rewrite Hn in Hr.
    repeat split; auto using constructed_untouched.
  - intros v p evs session.
    pose proof (run_invariant v evs (initial_invariant p)) as [Hr _].
    simpl in Hr. fold session in Hr.
    destruct (recognitionRef (fst session)) as [r0|].
    + destruct Hr as [Hc He]. split; [lia|].
      intros r Hin.
      assert (r = r0) as ->.
      { destruct Hin as [Hin | Hin]; apply He in Hin; try reflexivity;
          destruct Hin as [K | [K | K]]; congruence. }
      split; [|reflexivity].
      destruct (constructed_pos (snd session)) as (r1 & H1); [lia|].
      destruct (He _ H1 eq_refl) as [K | [K | K]]; congruence.
    + split; [rewrite (constructed_untouched _ Hr); lia|].
      intros r [Hin | Hin];
        apply (untouched_not_in _ _ Hr) in Hin; discriminate Hin.
Qed.

Lemma toggleListening_single_instance_witness :
  (state_of (toggleListening bare_platform offline initial_state)).(listening)
    = false
  /\ constructed
       (snd (run ChatJsx bare_platform
               [(offline, ClickSpeak); (offline, ClickSpeak)] initial_state))
     = 0.
Proof.
  destruct toggleListening_single_instance as (H1 & H2 & _).
  split.
  - rewrite (H1 bare_platform offline initial_state) by reflexivity.
    reflexivity.
  - apply (H2 ChatJsx bare_platform
             [(offline, ClickSpeak); (offline, ClickSpeak)]).
    reflexivity.
Defined.

(** Three toggles with support: one object, started, stopped and started
    again. *)
Example three_toggles :
  filter touches_recognition
    (snd (run ChatJsx full_platform
            [(offline, ClickSpeak); (offline, ClickSpeak);
             (offline, ClickSpeak)] initial_state))
  = [NewRecognition new_recognition; RecStart new_recognition;
     RecStop new_recognition; RecStart new_recognition].
Proof. reflexivity. Qed.

(** * Further properties of the code *)

(** ** [trim] *)

Lemma trimStart_split (s : jsstring) :
  exists pre, s = pre ++ trimStart s /\ forallb is_white_space pre = true.
Proof.
  induction s as [|c s (pre & E & H)]; simpl.
  - exists []. auto.
  - destruct (is_white_space c) eqn:Ec.
    + exists (c :: pre). simpl. rewrite Ec, H. split; [congruence | reflexivity].
    + exists []. auto.
Qed.

Lemma forallb_rev A (f : A -> bool) l :
  forallb f (rev l) = forallb f l.
Proof.
  induction l as [|a l IH]; simpl; [reflexivity|].
  rewrite forallb_app, IH. simpl. rewrite andb_true_r. apply andb_comm.
Qed.

Lemma trimEnd_split (s : jsstring) :
  exists post, s = trimEnd s ++ post /\ forallb is_white_space post = true.
Proof.
  unfold trimEnd. destruct (trimStart_split (rev s)) as (pre & E & H).
  exists (rev pre). split.
  - rewrite <- rev_app_distr, <- E. symmetry. apply rev_involutive.
  - now rewrite forallb_rev.
Qed.

Lemma trimStart_fixed (s : jsstring) :
  match s with c :: _ => is_white_space c = false | [] => True end ->
  trimStart s = s.
Proof. destruct s as [|c s]; simpl; [auto | intros ->; reflexivity]. Qed.

Lemma trimStart_all (s : jsstring) :
  forallb is_white_space s = true -> trimStart s = [].
Proof.
  induction s as [|c s IH]; simpl; [reflexivity|].
  intros H. apply andb_true_iff in H. destruct H as [-> H]. auto.
Qed.

Lemma trim_all_white (s : jsstring) :
  forallb is_white_space s = true -> trim s = [].
Proof.
  intros H. unfold trim, trimEnd. rewrite (trimStart_all s H). reflexivity.
Qed.

Lemma trim_head (s : jsstring) :
  match trim s with c :: _ => is_white_space c = false | [] => True end.
Proof.
  unfold trim. pose proof (trimStart_head s) as H.
  destruct (trimEnd_split (trimStart s)) as (post & E & _).
  destruct (trimEnd (trimStart s)) as [|c t]; [exact I|].
  rewrite E in H. exact H.
Qed.

Lemma trim_last (s : jsstring) :
  match rev (trim s) with c :: _ => is_white_space c = false | [] => True end.
Proof.
  unfold trim, trimEnd. rewrite rev_involutive. apply trimStart_head.
Qed.

(** X1. What [trim] gives: the input without a leading and a trailing run
    of white space, a result that neither starts nor ends with white space,
    and that trimming again leaves as it is. *)
Theorem trim_spec (s : jsstring) :
  (exists pre post,
     s = pre ++ trim s ++ post
     /\ forallb is_white_space pre = true
     /\ forallb is_white_space post = true)
  /\ (forall c rest, trim s = c :: rest -> is_white_space c = false)
  /\ (forall c front, trim s = front ++ [c] -> is_white_space c = false)
  /\ trim (trim s) = trim s.
Proof.
  split; [|split; [|split]].
  - destruct (trimStart_split s) as (pre & E1 & H1).
    destruct (trimEnd_split (trimStart s)) as (post & E2 & H2).
    exists pre, post. unfold trim. rewrite <- E2. auto.
  - intros c rest E. pose proof (trim_head s) as H. now rewrite E in H.
  - intros c front E. pose proof (trim_last s) as H.
    now rewrite E, rev_unit in H.
  - unfold trim at 1. rewrite (trimStart_fixed _ (trim_head s)).
    unfold trimEnd. rewrite (trimStart_fixed _ (trim_last s)).
    apply rev_involutive.
Qed.

(** ** More on [sendMessage] *)

(** X2. An input made of white space only is never sent: [sendMessage]
    leaves the state as it is and performs nothing. *)
Theorem sendMessage_white_space_only v p o s :
  forallb is_white_space s.(input) = true ->
  sendMessage v p o s = (Normal tt, s, []).
Proof.
  intros H. apply sendMessage_skipped. now rewrite (trim_all_white _ H).
Qed.

Lemma sendMessage_white_space_only_witness :
  sendMessage ChatJsx full_platform (replying (js "Hi there"))
    (with_input [32; 9; 10; 160; 8195; 65279]%N initial_state)
  = (Normal tt, with_input [32; 9; 10; 160; 8195; 65279]%N initial_state, []).
Proof.
  apply (sendMessage_white_space_only ChatJsx full_platform
           (replying (js "Hi there"))
           (with_input [32; 9; 10; 160; 8195; 65279]%N initial_state)).
  reflexivity.
Defined.

(** Every run of [sendMessage], in one of its two shapes. *)
Lemma sendMessage_shape v p o s :
  sendMessage v p o s = (Normal tt, s, [])
  \/ (trim s.(input) <> [] /\ s.(loading) = false
      /\ exists a convs l,
           a.(role) = assistant
           /\ sendMessage v p o s =
                (Normal tt,
                 with_loading false
                   (with_conversations convs
                      (with_input []
                         (with_messages
                            (s.(messages)
                               ++ [{| role := user;
                                      content := trim s.(input) |}; a])
                            s))),
                 l)).
Proof.
  destruct (falsy (trim (input s)) || loading s) eqn:G.
  - left. now apply sendMessage_skipped.
  - right. apply orb_false_iff in G. destruct G as [Gt Gl].
    assert (Ht : trim (input s) <> []).
    { intros E. rewrite E in Gt. discriminate Gt. }
    split; [exact Ht|]. split; [exact Gl|].
    assert (Hfailed :
      ask_fails (o.(ask_post) (trim s.(input)) s.(activeId)) ->
      exists a convs l,
        a.(role) = assistant
        /\ sendMessage v p o s =
             (Normal tt,
              with_loading false
                (with_conversations convs
                   (with_input []
                      (with_messages
                         (s.(messages)
                            ++ [{| role := user; content := trim s.(input) |};
                                a])
                         s))),
              l)).
    { intros Hf. pose proof (@sendMessage_ask_failed v p o s Ht Gl Hf) as K.
      cbv zeta in K.
      exists {| role := assistant; content := apology |}, (conversations s).
      eexists. split; [reflexivity|]. rewrite K. destruct s; reflexivity. }
    destruct (o.(ask_post) (trim s.(input)) s.(activeId))
      as [[[] [[r]|]]|] eqn:Hask.
    + eexists _, _, _. split; [|eapply sendMessage_ask_ok;
        [assumption | assumption | exact Hask | reflexivity | reflexivity]].
      reflexivity.
    + apply Hfailed. right; right. eexists; split; reflexivity.
    + apply Hfailed. right; left. eexists; split; reflexivity.
    + apply Hfailed. right; left. eexists; split; reflexivity.
    + apply Hfailed. now left.
Qed.


(** X4. A second [sendMessage] right after a first one does nothing,
    whatever the outside answers to either: the first one has emptied the
    input, or was itself held back by a guard that still holds. *)
Theorem sendMessage_twice v p o1 o2 s :
  let s1 := state_of (sendMessage v p o1 s) in
  sendMessage v p o2 s1 = (Normal tt, s1, []).
Proof.
  intros s1. subst s1.
  destruct (sendMessage_shape v p o1 s)
    as [E | (_ & _ & a & convs & l & _ & E)]; rewrite E;
    unfold state_of; simpl.
  - destruct (falsy (trim (input s)) || loading s) eqn:G.
    + now apply sendMessage_skipped.
    + (* the first run was a no-op although the guard let it through:
         impossible, a sent message performs effects *)
      apply orb_false_iff in G. destruct G as [Gt Gl].
      assert (Ht : trim (input s) <> []).
      { intros K. rewrite K in Gt. discriminate Gt. }
      destruct (sendMessage_sent v p o1 s Ht Gl) as (a & s' & rest & K & _).
      rewrite E in K. discriminate K.
  - apply sendMessage_skipped. reflexivity.
Qed.

(** X5. The Send button is disabled exactly in the states in which
    [sendMessage] would do nothing. *)
Theorem send_disabled_iff_noop v p o s :
  send_disabled s = true <-> sendMessage v p o s = (Normal tt, s, []).
Proof.
  unfold send_disabled. split.
  - intros H. apply sendMessage_skipped. now rewrite orb_comm.
  - intros E. destruct (loading s) eqn:Gl; [reflexivity|]. simpl.
    destruct (falsy (trim (input s))) eqn:Gt; [reflexivity|].
    assert (Ht : trim (input s) <> []).
    { intros K. rewrite K in Gt. discriminate Gt. }
    destruct (sendMessage_sent v p o s Ht Gl) as (a & s' & rest & K & _).
    rewrite E in K. discriminate K.
Qed.

(** ** Start-up and the conversation list *)


(** X7. When the list request gives a non-empty list, start-up stores it,
    makes its first entry the active conversation and loads that entry's
    messages; no conversation is created. *)
Theorem init_selects_first v o s res c cs :
  o.(conversations_get) = Some res ->
  res.(json_body) = Some (c :: cs) ->
  let loaded := loadMessages v o c.(id) s in
  init v o s =
    (Normal tt,
     with_messages (state_of loaded).(messages)
       (with_activeId (Some c.(id)) (with_conversations (c :: cs) s)),
     [Fetch GetConversations; SetConversations (c :: cs);
      SetActiveId (Some c.(id))] ++ effects_of loaded).
Proof.
  intros Hget Hbody loaded. subst loaded.
  unfold init, loadMessages, state_of, effects_of. unfold_m. simpl.
  rewrite Hget. simpl. rewrite Hbody. simpl.
  destruct (messages_get o (id c)) as [[okm [[|[|m l]]|]]|]; reflexivity.
Qed.

Lemma init_selects_first_witness :
  let c1 := {| id := js "c1"; title := Some (js "First");
               last_message_at := None |} in
  let c2 := {| id := js "c2"; title := None; last_message_at := None |} in
  let o := {| conversations_get :=
                Some {| ok := true; json_body := Some [c1; c2] |};
              conversations_post := fun _ => None;
              messages_get := fun _ => None;
              ask_post := fun _ _ => None;
              getUserMedia_resolves := true; rec_start_throws := false;
              synth_cancel_throws := false; synth_speak_throws := false |} in
  init ChatJsx o initial_state =
    (Normal tt,
     with_messages [greeting_message ChatJsx]
       (with_activeId (Some (js "c1"))
          (with_conversations [c1; c2] initial_state)),
     [Fetch GetConversations; SetConversations [c1; c2];
      SetActiveId (Some (js "c1")); Fetch (GetMessages (js "c1"));
      SetMessages [greeting_message ChatJsx]]).
Proof.
  intros c1 c2 o.
  apply (@init_selects_first ChatJsx o initial_state
           {| ok := true; json_body := Some [c1; c2] |} c1 [c2]);
    reflexivity.
Defined.

(** X8. When the list request gives an empty list, start-up creates a
    conversation.  If that succeeds the new conversation is the only entry
    of the list and the active one, and its messages are loaded.  If the
    creating request rejects, the list stays empty, no conversation becomes
    active and the history is the greeting alone. *)
Theorem init_creates_when_empty v o s res :
  o.(conversations_get) = Some res ->
  res.(json_body) = Some [] ->
  (forall res2 d,
     o.(conversations_post) None = Some res2 ->
     res2.(json_body) = Some d ->
     let loaded := loadMessages v o d.(id) s in
     init v o s =
       (Normal tt,
        with_messages (state_of loaded).(messages)
          (with_activeId (Some d.(id)) (with_conversations [d] s)),
        [Fetch GetConversations; SetConversations [];
         Fetch (PostConversation None); SetConversations [d];
         SetActiveId (Some d.(id))] ++ effects_of loaded))
  /\ (fetch_rejects (o.(conversations_post) None) ->
      init v o s =
        (Normal tt,
         with_messages [greeting_message v] (with_conversations [] s),
         [Fetch GetConversations; SetConversations [];
          Fetch (PostConversation None); SetMessages [greeting_message v]])).
Proof.
  intros Hget Hbody. split.
  - intros res2 d Hpost Hd loaded. subst loaded.
    unfold init, createConversation, loadMessages, state_of, effects_of.
    unfold_m. simpl. rewrite Hget. simpl. rewrite Hbody. simpl.
    rewrite Hpost. simpl. rewrite Hd. simpl.
    destruct d as [di dt dl]. simpl.
    destruct (messages_get o di) as [[okm [[|[|m l]]|]]|]; reflexivity.
  - intros Hrej.
    unfold init, createConversation. unfold_m. simpl.
    rewrite Hget. simpl. rewrite Hbody. simpl.
    destruct Hrej as [E | (r2 & E & Hb)]; rewrite E; simpl;
      [|rewrite Hb]; reflexivity.
Qed.

Lemma init_creates_when_empty_witness :
  let d := {| id := js "c1"; title := None; last_message_at := None |} in
  init ChatJsx (replying []) initial_state =
    (Normal tt,
     with_messages [greeting_message ChatJsx]
       (with_activeId (Some (js "c1"))
          (with_conversations [d] initial_state)),
     [Fetch GetConversations; SetConversations [];
      Fetch (PostConversation None); SetConversations [d];
      SetActiveId (Some (js "c1")); Fetch (GetMessages (js "c1"));
      SetMessages [greeting_message ChatJsx]]).
Proof.
  intros d.
  destruct (@init_creates_when_empty ChatJsx (replying []) initial_state
              {| ok := true; json_body := Some [] |}) as [H _];
    [reflexivity | reflexivity |].
  apply (H {| ok := true; json_body := Some d |} d); reflexivity.
Defined.

(** X9. A successful [newConversation] puts the created conversation at the
    head of the list, makes it active and shows the new-chat greeting
    without asking for its messages; selecting that conversation
    afterwards is a no-op, so the greeting stays. *)
Theorem newConversation_then_select v o o2 s res d :
  o.(conversations_post) None = Some res ->
  res.(json_body) = Some d ->
  let s' :=
    with_messages [{| role := assistant; content := new_chat_greeting v |}]
      (with_activeId (Some d.(id))
         (with_conversations (d :: s.(conversations)) s)) in
  newConversation v o s =
    (Normal tt, s',
     [Fetch (PostConversation None);
      SetConversations (d :: s.(conversations));
      SetActiveId (Some d.(id));
      SetMessages [{| role := assistant; content := new_chat_greeting v |}]])
  /\ selectConversation v o2 d.(id) s' = (Normal tt, s', []).
Proof.
  intros Hpost Hd s'. subst s'. split.
  - unfold newConversation, createConversation. unfold_m. simpl.
    rewrite Hpost. simpl. rewrite Hd. simpl.
    destruct d as [di dt dl]. reflexivity.
  - unfold selectConversation, bind, get. simpl.
    rewrite jsstring_eqb_refl. reflexivity.
Qed.

Lemma newConversation_then_select_witness :
  let d := {| id := js "c1"; title := None; last_message_at := None |} in
  state_of (newConversation ChatJsx (replying []) initial_state) =
    with_messages
      [{| role := assistant; content := new_chat_greeting ChatJsx |}]
      (with_activeId (Some (js "c1")) (with_conversations [d] initial_state)).
Proof.
  intros d.
  destruct (@newConversation_then_select ChatJsx (replying []) offline
              initial_state {| ok := true; json_body := Some d |} d)
    as [E _]; [reflexivity | reflexivity |].
  rewrite E. reflexivity.
Defined.

Lemma selectConversation_activeId v o i s :
  (state_of (selectConversation v o i s)).(activeId) = Some i.
Proof.
  unfold selectConversation, bind at 1, get, state_of. simpl.
  destruct (loadMessages_result v o i (with_activeId (Some i) s))
    as (h & E & _).
  destruct (activeId s) as [a|] eqn:Ea.
  - destruct (jsstring_eqb i a) eqn:Eq.
    + apply jsstring_eqb_eq in Eq. subst a. simpl. exact Ea.
    + unfold bind, setActiveId. fold (with_activeId (Some i) s).
      rewrite E. reflexivity.
  - unfold bind, setActiveId. fold (with_activeId (Some i) s).
    rewrite E. reflexivity.
Qed.

(** X10. Selecting the same conversation twice in a row loads its messages
    at most once: the second [selectConversation] does nothing, whatever
    the outside would answer. *)
Theorem selectConversation_twice v o1 o2 i s :
  let s1 := state_of (selectConversation v o1 i s) in
  selectConversation v o2 i s1 = (Normal tt, s1, []).
Proof.
  intros s1. pose proof (selectConversation_activeId v o1 i s) as H.
  fold s1 in H. unfold selectConversation, bind, get. simpl.
  rewrite H, jsstring_eqb_refl. reflexivity.
Qed.

(** ** The patterns and the choice of the voice *)

Lemma starts_with_i_spec pat s :
  starts_with_i pat s = true <->
  exists mid post,
    s = mid ++ post /\ map canonicalize mid = map canonicalize pat.
Proof.
  revert s. induction pat as [|c pat IH]; intros s; simpl.
  - split; [|reflexivity]. intros _. exists [], s. auto.
  - destruct s as [|d s].
    + split; [discriminate|].
      intros (mid & post & E & Hm). destruct mid; discriminate.
    + rewrite andb_true_iff, N.eqb_eq, IH. split.
      * intros (Hc & mid & post & E & Hm).
        exists (d :: mid), post. simpl. split; congruence.
      * intros (mid & post & E & Hm).
        destruct mid as [|d' mid]; [discriminate|].
        simpl in *. injection E as -> ->. injection Hm as Hc Hm.
        split; [congruence|]. exists mid, post. auto.
Qed.

Lemma test_i_unfold alts s :
  test_i alts s =
    existsb (fun pat => starts_with_i pat s) alts
    || match s with [] => false | _ :: s' => test_i alts s' end.
Proof. destruct s; reflexivity. Qed.

(** X11. The pattern test, [/w1|w2|.../i.test(s)] with literal
    alternatives, holds exactly when some alternative occurs in [s] as a
    contiguous part, ASCII letters compared without case; so it gives the
    same on two strings that differ in the case of ASCII letters only. *)
Theorem test_i_spec alts s :
  (test_i alts s = true <->
   exists pat pre mid post,
     In pat alts /\ s = pre ++ mid ++ post
     /\ map canonicalize mid = map canonicalize pat)
  /\ (forall s2, map canonicalize s = map canonicalize s2 ->
                 test_i alts s = test_i alts s2).
Proof.
  assert (Hspec : forall s,
    test_i alts s = true <->
    exists pat pre mid post,
      In pat alts /\ s = pre ++ mid ++ post
      /\ map canonicalize mid = map canonicalize pat).
  { clear s. induction s as [|d s IH]; rewrite test_i_unfold.
    - rewrite orb_false_r, existsb_exists. split.
      + intros (pat & Hin & H). apply starts_with_i_spec in H.
        destruct H as (mid & post & E & Hm). exists pat, [], mid, post. auto.
      + intros (pat & pre & mid & post & Hin & E & Hm).
        exists pat. split; [exact Hin|]. apply starts_with_i_spec.
        destruct pre; [|discriminate]. exists mid, post. auto.
    - rewrite orb_true_iff, existsb_exists, IH. split.
      + intros [(pat & Hin & H) | (pat & pre & mid & post & Hin & E & Hm)].
        * apply starts_with_i_spec in H.
          destruct H as (mid & post & E & Hm). exists pat, [], mid, post. auto.
        * exists pat, (d :: pre), mid, post. simpl. split; [auto|].
          split; congruence.
      + intros (pat & pre & mid & post & Hin & E & Hm).
        destruct pre as [|d' pre].
        * left. exists pat. split; [exact Hin|]. apply starts_with_i_spec.
          exists mid, post. auto.
        * right. simpl in E. injection E as -> ->.
          exists pat, pre, mid, post. auto. }
  split; [apply Hspec|].
  intros s2 Hmap.
  assert (Hdir : forall a b, map canonicalize a = map canonicalize b ->
                             test_i alts a = true -> test_i alts b = true).
  { intros a b Hab Ha. apply Hspec in Ha. apply Hspec.
    destruct Ha as (pat & pre & mid & post & Hin & E & Hm).
    subst a. rewrite !map_app in Hab. symmetry in Hab.
    apply map_eq_app in Hab. destruct Hab as (pre' & r & -> & Hp & Hr).
    apply map_eq_app in Hr. destruct Hr as (mid' & post' & -> & Hmid & Hq).
    exists pat, pre', mid', post'. split; [exact Hin|].
    split; [reflexivity | congruence]. }
  destruct (test_i alts s) eqn:E1, (test_i alts s2) eqn:E2; try reflexivity.
  - rewrite (Hdir _ _ Hmap E1) in E2. discriminate E2.
  - symmetry in Hmap. rewrite (Hdir _ _ Hmap E2) in E1. discriminate E1.
Qed.

(** X12. The voice [speakText] uses is always one of the cached voices.
    There is none -- the platform default is used -- exactly when the cache
    is empty, and when some cached voice passes both pattern tests, the
    voice used passes them too. *)
Theorem preferred_voice_member v voices :
  let good vc := test_i [js "en-US"; js "en_GB"] vc.(lang)
                 && test_i (voice_name_alternatives v) vc.(name) in
  (preferred_voice v voices = None <-> voices = [])
  /\ (forall vc, preferred_voice v voices = Some vc -> In vc voices)
  /\ (forall vc, In vc voices -> good vc = true ->
      exists vc', preferred_voice v voices = Some vc' /\ good vc' = true).
Proof.
  intros good. unfold preferred_voice. fold good.
  destruct (find good voices) as [w|] eqn:F.
  - apply find_some in F. destruct F as [Hin Hg].
    split; [|split].
    + split; [discriminate | intros ->; contradiction].
    + intros vc [= <-]. exact Hin.
    + intros _ _ _. exists w. auto.
  - split; [|split].
    + destruct voices; simpl; split; congruence.
    + intros vc H. destruct voices as [|w ws]; [discriminate|].
      simpl in H. injection H as <-. now left.
    + intros vc Hin Hg. rewrite (find_none _ _ F _ Hin) in Hg.
      discriminate Hg.
Qed.

Lemma preferred_voice_member_witness :
  exists vc',
    preferred_voice ChatJsx [anna; google_us] = Some vc'
    /\ test_i [js "en-US"; js "en_GB"] vc'.(lang)
       && test_i (voice_name_alternatives ChatJsx) vc'.(name) = true.
Proof.
  destruct (preferred_voice_member ChatJsx [anna; google_us])
    as (_ & _ & H).
  apply (H google_us); [right; left; reflexivity | reflexivity].
Defined.

Lemma trim_spec_witness :
  trim (js "  Hello world  ") = js "Hello world"
  /\ is_white_space 72%N = false.
Proof.
  split; [reflexivity|].
  destruct (trim_spec (js "  Hello world  ")) as (_ & H & _).
  apply (H 72%N (js "ello world")). reflexivity.
Defined.

Lemma test_i_spec_witness :
  test_i [js "en-US"; js "en_GB"] (js "EN-us")
  = test_i [js "en-US"; js "en_GB"] (js "en-US").
Proof.
  destruct (test_i_spec [js "en-US"; js "en_GB"] (js "EN-us")) as [_ H].
  apply H. reflexivity.
Defined.

(** ** More on [toggleListening] *)

(** X13. [toggleListening] always completes normally and never touches
    the chat: the conversation list, the active id, the history, the input,
    [loading], [voiceEnabled] and the cached voices are as before. *)
Theorem toggleListening_frame p o s :
  let result := toggleListening p o s in
  let s' := state_of result in
  completion_of result = Normal tt
  /\ s'.(conversations) = s.(conversations)
  /\ s'.(activeId) = s.(activeId)
  /\ s'.(messages) = s.(messages)
  /\ s'.(input) = s.(input)
  /\ s'.(loading) = s.(loading)
  /\ s'.(voiceEnabled) = s.(voiceEnabled)
  /\ s'.(voicesRef) = s.(voicesRef).
Proof.
  unfold toggleListening, ensureMicPermission, completion_of, state_of.
  unfold_m. simpl.
  destruct (recSupported p), (recognitionRef s), (listening s),
    (has_getUserMedia p), (getUserMedia_resolves o), (rec_start_throws o);
    simpl; repeat split; reflexivity.
Qed.

(** X14. When the microphone prompt is refused, a toggle from idle records
    the denial and the status text and starts nothing: [listening] stays
    false.  The recognition object has been constructed all the same, if
    there was none. *)
Theorem toggleListening_denied p o s :
  p.(recSupported) = true ->
  s.(listening) = false ->
  p.(has_getUserMedia) = true ->
  o.(getUserMedia_resolves) = false ->
  let r := match s.(recognitionRef) with
           | Some r => r
           | None => new_recognition
           end in
  toggleListening p o s =
    (Normal tt,
     with_voiceStatus
       (js "Microphone permission blocked. Please allow access in your browser settings.")
       (with_micPermission denied (with_recognitionRef (Some r) s)),
     match s.(recognitionRef) with
     | Some _ => []
     | None => [NewRecognition r]
     end
     ++ [GetUserMedia; SetMicPermission denied;
         SetVoiceStatus
           (js "Microphone permission blocked. Please allow access in your browser settings.")]).
Proof.
  intros Hp Hl Hg Hr r. subst r.
  unfold toggleListening, ensureMicPermission. unfold_m. simpl.
  rewrite Hp, Hl, Hg, Hr. simpl.
  destruct s as [cs aid ms inp ld ve li mp vs rr vr]; simpl in *.
  destruct rr; reflexivity.
Qed.

Lemma toggleListening_denied_witness :
  let o := {| conversations_get := None;
              conversations_post := fun _ => None;
              messages_get := fun _ => None;
              ask_post := fun _ _ => None;
              getUserMedia_resolves := false; rec_start_throws := false;
              synth_cancel_throws := false; synth_speak_throws := false |} in
  let s' := state_of (toggleListening full_platform o initial_state) in
  s'.(listening) = false /\ s'.(micPermission) = denied
  /\ s'.(recognitionRef) = Some new_recognition.
Proof.
  intros o s'. subst s'.
  rewrite (@toggleListening_denied full_platform o initial_state)
    by reflexivity.
  repeat split.
Defined.

(** X15. A toggle while listening stops the recognition object and sets
    [listening] to false, without asking for the microphone and without
    touching the status text or the recorded permission. *)
Theorem toggleListening_stop p o s :
  p.(recSupported) = true ->
  s.(listening) = true ->
  let r := match s.(recognitionRef) with
           | Some r => r
           | None => new_recognition
           end in
  toggleListening p o s =
    (Normal tt,
     with_listening false (with_recognitionRef (Some r) s),
     match s.(recognitionRef) with
     | Some _ => []
     | None => [NewRecognition r]
     end
     ++ [RecStop r; SetListening false]).
Proof.
  intros Hp Hl r. subst r.
  unfold toggleListening. unfold_m. simpl. rewrite Hp, Hl. simpl.
  destruct s as [cs aid ms inp ld ve li mp vs rr vr]; simpl in *.
  destruct rr; reflexivity.
Qed.

Lemma toggleListening_stop_witness :
  let s := with_voiceStatus (js "Listening...")
            (with_listening true
               (with_recognitionRef (Some new_recognition) initial_state)) in
  toggleListening full_platform offline s =
    (Normal tt, with_listening false s,
     [RecStop new_recognition; SetListening false]).
Proof.
  intros s.
  apply (@toggleListening_stop full_platform offline s); reflexivity.
Defined.

(** X16. A toggle from idle, with the microphone granted or no prompt to
    make: if starting succeeds, [listening] becomes true and the status
    text says so; if starting throws, the toggle still completes normally,
    [listening] is false and the status text reports the failure. *)
Theorem toggleListening_start p o s :
  p.(recSupported) = true ->
  s.(listening) = false ->
  p.(has_getUserMedia) = false \/ o.(getUserMedia_resolves) = true ->
  let r := match s.(recognitionRef) with
           | Some r => r
           | None => new_recognition
           end in
  let s0 := with_recognitionRef (Some r) s in
  let s1 := if p.(has_getUserMedia) then with_micPermission granted s0
            else s0 in
  let before :=
    match s.(recognitionRef) with
    | Some _ => []
    | None => [NewRecognition r]
    end
    ++ (if p.(has_getUserMedia)
        then [GetUserMedia; SetMicPermission granted] else [])
    ++ [RecStart r] in
  toggleListening p o s =
    if o.(rec_start_throws) then
      (Normal tt,
       with_voiceStatus
         (js "Could not start speech recognition. Make sure only one tab is listening.")
         (with_listening false s1),
       before
       ++ [SetListening false;
           SetVoiceStatus
             (js "Could not start speech recognition. Make sure only one tab is listening.")])
    else
      (Normal tt,
       with_listening true (with_voiceStatus (js "Listening...") s1),
       before ++ [SetVoiceStatus (js "Listening..."); SetListening true]).
Proof.
  intros Hp Hl Hperm r s0 s1 before. subst before s1 s0 r.
  unfold toggleListening, ensureMicPermission. unfold_m. simpl.
  rewrite Hp, Hl. simpl.
  destruct s as [cs aid ms inp ld ve li mp vs rr vr]; simpl in *.
  destruct Hperm as [H | H]; rewrite H; simpl;
    destruct rr, (rec_start_throws o); simpl; try reflexivity;
    destruct (has_getUserMedia p); reflexivity.
Qed.

Lemma toggleListening_start_witness :
  toggleListening full_platform offline initial_state =
    (Normal tt,
     with_listening true
       (with_voiceStatus (js "Listening...")
          (with_micPermission granted
             (with_recognitionRef (Some new_recognition) initial_state))),
     [NewRecognition new_recognition; GetUserMedia; SetMicPermission granted;
      RecStart new_recognition; SetVoiceStatus (js "Listening...");
      SetListening true]).
Proof.
  apply (@toggleListening_start full_platform offline initial_state);
    [reflexivity | reflexivity | right; reflexivity].
Defined.

(** ** What the handlers keep *)

Lemma preserves_ret A P (a : A) : preserves P (ret a).
Proof. intros s H. exact H. Qed.

Lemma preserves_throw A P e : preserves P (@throw A e).
Proof. intros s H. exact H. Qed.

Lemma preserves_get P : preserves P get.
Proof. intros s H. exact H. Qed.

Lemma preserves_perform P e : preserves P (perform e).
Proof. intros s H. exact H. Qed.

Lemma preserves_bind A B P (m : M A) (k : A -> M B) :
  preserves P m -> (forall a, preserves P (k a)) -> preserves P (bind m k).
Proof.
  intros Hm Hk s H. specialize (Hm s H). unfold state_of, bind in *.
  destruct (m s) as [[[a|e] s1] l1]; simpl in *; [|exact Hm].
  specialize (Hk a s1 Hm). unfold state_of in Hk.
  destruct (k a s1) as [[r s2] l2]. exact Hk.
Qed.

Lemma preserves_try_catch A P (m : M A) (h : Error -> M A) :
  preserves P m -> (forall e, preserves P (h e)) ->
  preserves P (try_catch m h).
Proof.
  intros Hm Hh s H. specialize (Hm s H). unfold state_of, try_catch in *.
  destruct (m s) as [[[a|e] s1] l1]; simpl in *; [exact Hm|].
  specialize (Hh e s1 Hm). unfold state_of in Hh.
  destruct (h e s1) as [[r s2] l2]. exact Hh.
Qed.

Lemma preserves_try_finally A P (m : M A) (f : M unit) :
  preserves P m -> preserves P f -> preserves P (try_finally m f).
Proof.
  intros Hm Hf s H. specialize (Hm s H). unfold state_of, try_finally in *.
  destruct (m s) as [[r s1] l1]; simpl in *.
  specialize (Hf s1 Hm). unfold state_of in Hf.
  destruct (f s1) as [[[u|e] s2] l2]; exact Hf.
Qed.

Lemma preserves_when P b (m : M unit) : preserves P m -> preserves P (when b m).
Proof. destruct b; [auto | intros _; apply preserves_ret]. Qed.

Lemma preserves_json A P (res : Response A) : preserves P (json res).
Proof.
  unfold json. destruct (json_body res);
    [apply preserves_ret | apply preserves_throw].
Qed.

Lemma preserves_fetch A P r (out : FetchOutcome A) : preserves P (fetch r out).
Proof.
  unfold fetch. apply preserves_bind; [apply preserves_perform|].
  intros _. destruct out; [apply preserves_ret | apply preserves_throw].
Qed.

Lemma preserved A P (m : M A) s : preserves P m -> P s -> P (state_of (m s)).
Proof. intros H. apply H. Qed.

(** Takes a handler apart; [leaf] is tried on what is left, the setters. *)
Ltac preserves_steps leaf :=
  repeat first
    [ apply preserves_ret | apply preserves_throw | apply preserves_get
    | apply preserves_perform | apply preserves_json | apply preserves_fetch
    | progress cbv zeta
    | apply preserves_bind; [|intros ?]
    | apply preserves_try_catch; [|intros ?]
    | apply preserves_try_finally
    | apply preserves_when
    | match goal with
      | |- preserves _ (if ?b then _ else _) => destruct b
      | |- preserves _ (match ?x with _ => _ end) => destruct x
      end
    | solve [leaf] ].

(** A setter of another cell keeps a property of this cell. *)
Ltac other_cell := intros ? H0; exact H0.

Ltac unfold_handlers :=
  unfold init, newConversation, selectConversation, createConversation,
    loadMessages, speakText, rec_onresult, rec_onend, rec_onerror,
    on_recognition, ensureMicPermission.

Lemma sendMessage_keeps P v p o :
  (forall s x, P s -> P (with_messages x s)) ->
  (forall s x, P s -> P (with_input x s)) ->
  (forall s x, P s -> P (with_conversations x s)) ->
  (forall s, P s -> P (with_loading false s)) ->
  (forall s, P s -> P (with_loading true s)) ->
  preserves P (sendMessage v p o).
Proof.
  intros Hm Hi Hc Hf Ht. unfold sendMessage, speakText.
  preserves_steps ltac:(first
    [ intros ? H0; apply Hm; exact H0 | intros ? H0; apply Hi; exact H0
    | intros ? H0; apply Hc; exact H0 | intros ? H0; apply Hf; exact H0
    | intros ? H0; apply Ht; exact H0 ]).
Qed.

Lemma handleKey_keeps P v p o e :
  preserves P (sendMessage v p o) -> preserves P (handleKey v p o e).
Proof.
  intros H. unfold handleKey.
  destruct (jsstring_eqb (key e) (js "Enter") && negb (shiftKey e));
    [|apply preserves_ret].
  apply preserves_bind; [apply preserves_perform | intros _; exact H].
Qed.

Lemma handle_keeps_voiceEnabled v p o e s :
  (forall b, e <> VoiceCheckbox b) ->
  (state_of (handle v p o e s)).(voiceEnabled) = s.(voiceEnabled).
Proof.
  intros He.
  apply (@preserved unit (fun st => voiceEnabled st = voiceEnabled s));
    [|reflexivity].
  destruct e; cbn [handle];
    try (exfalso; eapply He; reflexivity);
    try (apply handleKey_keeps);
    try (apply sendMessage_keeps; intros; assumption);
    unfold toggleListening; unfold_handlers;
    preserves_steps other_cell.
Qed.








(** ** Sessions *)

Lemma run_keeps P v p :
  (forall o e, preserves P (handle v p o e)) ->
  forall evs s, P s -> P (fst (run v p evs s)).
Proof.
  intros Hh. induction evs as [|[o e] evs IH]; intros s H; simpl; [exact H|].
  specialize (Hh o e s H). unfold state_of in Hh.
  destruct (handle v p o e s) as [[c s1] l1]. simpl in Hh.
  specialize (IH s1 Hh). destruct (run v p evs s1) as [s2 l2]. exact IH.
Qed.






(** X19. Without support for speech recognition the view renders no voice
    checkbox, so in a session driven through the view voice output can
    never be switched off: [voiceEnabled] keeps its value, [true] from the
    initial state. *)
Theorem voice_output_stays_enabled v p evs :
  p.(recSupported) = false ->
  forall s,
    ui_driven v p evs s = true ->
    (fst (run v p evs s)).(voiceEnabled) = s.(voiceEnabled).
Proof.
  intros Hp. induction evs as [|[o e] evs IH]; intros s H; simpl;
    [reflexivity|].
  simpl in H. apply andb_true_iff in H. destruct H as [Ho Hrest].
  assert (Hk : (state_of (handle v p o e s)).(voiceEnabled) = s.(voiceEnabled)).
  { apply handle_keeps_voiceEnabled. intros b ->. simpl in Ho.
    rewrite Hp in Ho. discriminate Ho. }
  specialize (IH _ Hrest). unfold state_of in *.
  destruct (handle v p o e s) as [[c s1] l1]. simpl in *.
  destruct (run v p evs s1) as [s2 l2]. simpl in *. congruence.
Qed.

Lemma voice_output_stays_enabled_witness :
  let p := {| recSupported := false; synthSupported := true;
              has_getUserMedia := true |} in
  (fst (run ChatJsx p
          [(replying (js "Hi there"), Mount);
           (replying (js "Hi there"), InputChange (js "Hello"));
           (replying (js "Hi there"), ClickSend)]
          initial_state)).(voiceEnabled) = true.
Proof.
  intros p.
  apply (@voice_output_stays_enabled ChatJsx p
           [(replying (js "Hi there"), Mount);
            (replying (js "Hi there"), InputChange (js "Hello"));
            (replying (js "Hi there"), ClickSend)]);
    reflexivity.
Defined.

(** What holds whenever the adapter is listening. *)
Lemma listening_state_step v p o e s :
  (s.(listening) = true ->
   s.(voiceStatus) = js "Listening..."
   /\ s.(recognitionRef) <> None /\ p.(recSupported) = true) ->
  let s' := state_of (handle v p o e s) in
  s'.(listening) = true ->
  s'.(voiceStatus) = js "Listening..."
  /\ s'.(recognitionRef) <> None /\ p.(recSupported) = true.
Proof.
  intros Hinv s'. subst s'.
  set (P := fun st : State =>
              listening st = true ->
              voiceStatus st = js "Listening..."
              /\ recognitionRef st <> None /\ recSupported p = true).
  change (P (state_of (handle v p o e s))).
  assert (HP : P s) by exact Hinv.
  destruct e; cbn [handle];
    try solve [ apply (@preserved unit P); [|exact HP];
                try (apply handleKey_keeps);
                try (apply sendMessage_keeps; intros; assumption);
                unfold_handlers; preserves_steps other_cell ].
  - (* ClickSpeak *)
    unfold P, toggleListening, ensureMicPermission, state_of. unfold_m.
    simpl.
    destruct (recSupported p) eqn:Hp; simpl.
    + destruct (recognitionRef s) eqn:Er, (listening s) eqn:El,
        (has_getUserMedia p), (getUserMedia_resolves o),
        (rec_start_throws o); simpl; rewrite ?Er;
        intros Hl; rewrite ?El in Hl; try discriminate Hl;
        repeat split; first [reflexivity | discriminate].
    + intros Hl. destruct (Hinv Hl) as (_ & _ & K). discriminate K.
  - (* RecognitionEnd *)
    unfold P, on_recognition, rec_onend, state_of. unfold_m. simpl.
    destruct (recognitionRef s) eqn:Er; simpl; [discriminate | exact HP].
  - (* RecognitionError *)
    unfold P, on_recognition, rec_onerror, state_of. unfold_m. simpl.
    destruct (recognitionRef s) eqn:Er; simpl; [discriminate | exact HP].
Qed.

(** X20. Whenever the adapter is listening, the status line says so:
    in every state a session reaches from the initial one with [listening]
    true, the status text is "Listening...", the recognition object exists
    and the browser supports recognition. *)
Theorem listening_shows_status v p evs :
  let s' := fst (run v p evs initial_state) in
  s'.(listening) = true ->
  s'.(voiceStatus) = js "Listening..."
  /\ s'.(recognitionRef) <> None /\ p.(recSupported) = true.
Proof.
  intros s'. subst s'.
  apply (@run_keeps
           (fun st => listening st = true ->
                      voiceStatus st = js "Listening..."
                      /\ recognitionRef st <> None
                      /\ recSupported p = true) v p).
  - intros o e s H. apply listening_state_step. exact H.
  - discriminate.
Qed.

Lemma listening_shows_status_witness :
  (fst (run ChatJsx full_platform
          [(offline, Mount); (offline, ClickSpeak)]
          initial_state)).(voiceStatus) = js "Listening...".
Proof.
  apply (@listening_shows_status ChatJsx full_platform
           [(offline, Mount); (offline, ClickSpeak)]).
  reflexivity.
Defined.

(** The status text is not cleared on stop: after a start and a stop the
    adapter is idle and the status line still reads "Listening...". *)
Example status_after_stop :
  let s' := fst (run ChatJsx full_platform
                   [(offline, ClickSpeak); (offline, ClickSpeak)]
                   initial_state) in
  s'.(listening) = false /\ s'.(voiceStatus) = js "Listening...".
Proof. split; reflexivity. Qed.

(** ** The callbacks of the recognition object *)

(** X21. A result event overwrites the input, whatever was typed, with the
    transcripts from [resultIndex] on, joined in order; when [resultIndex]
    is not below the number of results the input becomes empty, which
    disables the Send button. *)
Theorem dictation_overwrites_input v p o ev s r :
  s.(recognitionRef) = Some r ->
  let transcript := List.concat (skipn ev.(resultIndex) ev.(results)) in
  handle v p o (RecognitionResult ev) s =
    (Normal tt, with_input transcript s, [SetInput transcript])
  /\ (List.length ev.(results) <= ev.(resultIndex) ->
      transcript = [] /\ send_disabled (with_input transcript s) = true).
Proof.
  intros Hr transcript. split.
  - cbn [handle]. unfold on_recognition, rec_onresult. unfold_m. simpl.
    rewrite Hr. reflexivity.
  - intros Hlen. subst transcript. rewrite skipn_all2 by exact Hlen.
    split; [reflexivity|]. unfold send_disabled. simpl. apply orb_true_r.
Qed.

Lemma dictation_overwrites_input_witness :
  let s := with_input (js "typed before")
             (with_recognitionRef (Some new_recognition) initial_state) in
  handle ChatJsx full_platform offline
    (RecognitionResult
       {| resultIndex := 1;
          results := [js "old "; js "turn on "; js "the lights"] |}) s
  = (Normal tt, with_input (js "turn on the lights") s,
     [SetInput (js "turn on the lights")])
  /\ (state_of
        (handle ChatJsx full_platform offline
           (RecognitionResult {| resultIndex := 2; results := [js "gone"] |})
           s)).(input) = [].
Proof.
  intros s. split.
  - apply (@dictation_overwrites_input ChatJsx full_platform offline
             {| resultIndex := 1;
                results := [js "old "; js "turn on "; js "the lights"] |}
             s new_recognition).
    reflexivity.
  - destruct (@dictation_overwrites_input ChatJsx full_platform offline
                {| resultIndex := 2; results := [js "gone"] |}
                s new_recognition eq_refl) as [E H].
    rewrite E. unfold state_of. simpl.
    destruct H as [Ht _]; [simpl; lia|]. exact Ht.
Defined.

(** X22. An error event of the recognition object sets [listening] to
    false and a status text: the text for a refused microphone exactly when
    the error code is "not-allowed", the generic text for any other code
    and for an event without code. *)
Theorem rec_onerror_status code s :
  let s' := state_of (rec_onerror code s) in
  s'.(listening) = false
  /\ (s'.(voiceStatus) = js "Microphone permission denied."
      <-> code = Some (js "not-allowed"))
  /\ (s'.(voiceStatus) = js "Speech recognition error. Try again."
      <-> code <> Some (js "not-allowed")).
Proof.
  unfold rec_onerror, state_of. unfold_m. simpl.
  split; [reflexivity|].
  assert (Hd : js "Microphone permission denied."
               <> js "Speech recognition error. Try again.")
    by (cbv; discriminate).
  assert (Hc : forall c, jsstring_eqb c (js "not-allowed") = false ->
                         c <> js "not-allowed").
  { intros c E ->. rewrite jsstring_eqb_refl in E. discriminate E. }
  destruct code as [c|];
    [destruct (jsstring_eqb c (js "not-allowed")) eqn:E;
     [apply jsstring_eqb_eq in E; subst c | apply Hc in E]|];
    (split; split; intros K;
     first [ reflexivity | discriminate K
           | exfalso; apply Hd; exact K
           | exfalso; apply Hd; symmetry; exact K
           | exfalso; apply K; reflexivity
           | injection K as K; contradiction
           | intros [= K2]; contradiction ]).
Qed.

(** ** The Speak button of a bubble *)



(** ** The sidebar *)

(** X24. Every entry of the sidebar has a non-empty label: the title when
    there is a non-empty one, and "Conversation" both for a missing and for
    an empty title. *)
Theorem sidebar_label_nonempty c :
  sidebar_label c <> []
  /\ (forall t, c.(title) = Some t -> t <> [] -> sidebar_label c = t)
  /\ (c.(title) = None \/ c.(title) = Some [] ->
      sidebar_label c = js "Conversation").
Proof.
  unfold sidebar_label. destruct (title c) as [[|ch t]|]; simpl.
  - split; [discriminate|]. split; [congruence | reflexivity].
  - split; [discriminate|]. split; [congruence|].
    intros [K | K]; discriminate K.
  - split; [discriminate|]. split; [discriminate | reflexivity].
Qed.

Lemma sidebar_label_nonempty_witness :
  sidebar_label {| id := js "c1"; title := Some [];
                   last_message_at := None |} = js "Conversation"
  /\ sidebar_label {| id := js "c2"; title := Some (js "Trip");
                      last_message_at := None |} = js "Trip".
Proof.
  split.
  - apply (sidebar_label_nonempty
             {| id := js "c1"; title := Some []; last_message_at := None |}).
    right. reflexivity.
  - apply (sidebar_label_nonempty
             {| id := js "c2"; title := Some (js "Trip");
                last_message_at := None |});
      [reflexivity | discriminate].
Defined.

Lemma rec_onerror_status_witness :
  (state_of (rec_onerror (Some (js "not-allowed")) initial_state)).(voiceStatus)
  = js "Microphone permission denied.".
Proof.
  apply (rec_onerror_status (Some (js "not-allowed")) initial_state).
  reflexivity.
Defined.

Lemma send_disabled_iff_noop_witness :
  sendMessage ChatJsx full_platform offline
    (with_loading true (typed "Hello"))
  = (Normal tt, with_loading true (typed "Hello"), []).
Proof.
  apply (send_disabled_iff_noop ChatJsx full_platform offline
           (with_loading true (typed "Hello"))).
  reflexivity.
Defined.


(** ** The first version and the full one *)







(** ** The status of a response *)

(** X29. Only the ask request looks at the status of its response.
    [loadMessages] and [createConversation] treat the body of a response
    that is not OK like any other body: two responses with the same body
    and different [ok] give the same run. *)
Theorem status_not_inspected v o1 o2 s ok1 ok2 :
  (forall cid b,
     o1.(messages_get) cid = Some {| ok := ok1; json_body := b |} ->
     o2.(messages_get) cid = Some {| ok := ok2; json_body := b |} ->
     loadMessages v o1 cid s = loadMessages v o2 cid s)
  /\ (forall t b,
        o1.(conversations_post) t = Some {| ok := ok1; json_body := b |} ->
        o2.(conversations_post) t = Some {| ok := ok2; json_body := b |} ->
        createConversation o1 t s = createConversation o2 t s).
Proof.
  split.
  - intros cid b E1 E2. unfold loadMessages. unfold_m. simpl.
    rewrite E1, E2. reflexivity.
  - intros t b E1 E2. unfold createConversation. unfold_m. simpl.
    rewrite E1, E2. reflexivity.
Qed.

Lemma status_not_inspected_witness :
  let body := Some (AnArray [{| role := user; content := js "kept" |}]) in
  let answering okm :=
    {| conversations_get := None;
       conversations_post := fun _ => None;
       messages_get := fun _ => Some {| ok := okm; json_body := body |};
       ask_post := fun _ _ => None;
       getUserMedia_resolves := true; rec_start_throws := false;
       synth_cancel_throws := false; synth_speak_throws := false |} in
  (state_of (loadMessages ChatJsx (answering false) (js "c1")
               initial_state)).(messages)
  = [{| role := user; content := js "kept" |}].
Proof.
  intros body answering.
  destruct (status_not_inspected ChatJsx (answering false) (answering true)
              initial_state false true) as [H _].
  rewrite (H (js "c1") body eq_refl eq_refl). reflexivity.
Defined.

(** ** What a session never performs *)

Lemma emits_ret A f (a : A) : emits_only f (ret a).
Proof. intros s. reflexivity. Qed.

Lemma emits_throw A f e : emits_only f (@throw A e).
Proof. intros s. reflexivity. Qed.

Lemma emits_get f : emits_only f get.
Proof. intros s. reflexivity. Qed.

Lemma emits_perform f e : f e = true -> emits_only f (perform e).
Proof. intros H s. simpl. now rewrite H. Qed.

Lemma emits_bind A B f (m : M A) (k : A -> M B) :
  emits_only f m -> (forall a, emits_only f (k a)) -> emits_only f (bind m k).
Proof.
  intros Hm Hk s. specialize (Hm s). unfold effects_of, bind in *.
  destruct (m s) as [[[a|e] s1] l1]; simpl in *; [|exact Hm].
  specialize (Hk a s1). unfold effects_of in Hk.
  destruct (k a s1) as [[r s2] l2]. simpl in *.
  now rewrite forallb_app, Hm, Hk.
Qed.

Lemma emits_try_catch A f (m : M A) (h : Error -> M A) :
  emits_only f m -> (forall e, emits_only f (h e)) ->
  emits_only f (try_catch m h).
Proof.
  intros Hm Hh s. specialize (Hm s). unfold effects_of, try_catch in *.
  destruct (m s) as [[[a|e] s1] l1]; simpl in *; [exact Hm|].
  specialize (Hh e s1). unfold effects_of in Hh.
  destruct (h e s1) as [[r s2] l2]. simpl in *.
  now rewrite forallb_app, Hm, Hh.
Qed.

Lemma emits_try_finally A f (m : M A) (fin : M unit) :
  emits_only f m -> emits_only f fin -> emits_only f (try_finally m fin).
Proof.
  intros Hm Hf s. specialize (Hm s). unfold effects_of, try_finally in *.
  destruct (m s) as [[r s1] l1]; simpl in *.
  specialize (Hf s1). unfold effects_of in Hf.
  destruct (fin s1) as [[[u|e] s2] l2]; simpl in *;
    now rewrite forallb_app, Hm, Hf.
Qed.

Lemma emits_when f b (m : M unit) : emits_only f m -> emits_only f (when b m).
Proof. destruct b; [auto | intros _; apply emits_ret]. Qed.

Lemma emits_json A f (res : Response A) : emits_only f (json res).
Proof.
  unfold json. destruct (json_body res); [apply emits_ret | apply emits_throw].
Qed.

Lemma emits_fetch A f r (out : FetchOutcome A) :
  f (Fetch r) = true -> emits_only f (fetch r out).
Proof.
  intros H. unfold fetch. apply emits_bind; [now apply emits_perform|].
  intros _. destruct out; [apply emits_ret | apply emits_throw].
Qed.

Lemma run_emits f v p :
  (forall o e, emits_only f (handle v p o e)) ->
  forall evs s, forallb f (snd (run v p evs s)) = true.
Proof.
  intros Hh. induction evs as [|[o e] evs IH]; intros s; simpl;
    [reflexivity|].
  specialize (Hh o e s). unfold effects_of in Hh.
  destruct (handle v p o e s) as [[c s1] l1]. simpl in Hh.
  specialize (IH s1). destruct (run v p evs s1) as [s2 l2]. simpl in *.
  now rewrite forallb_app, Hh, IH.
Qed.

(** Takes a handler apart; a setter or an effect is checked by running
    the test on it. *)
Ltac emits_steps_with extra :=
  repeat first
    [ extra
    | apply emits_ret | apply emits_throw | apply emits_get
    | apply emits_json
    | apply emits_fetch; reflexivity
    | apply emits_perform; reflexivity
    | progress cbv zeta
    | apply emits_bind; [|intros ?]
    | apply emits_try_catch; [|intros ?]
    | apply emits_try_finally
    | apply emits_when
    | match goal with
      | |- emits_only _ (if ?b then _ else _) => destruct b
      | |- emits_only _ (match ?x with _ => _ end) => destruct x
      end
    | solve [intros ?; reflexivity] ].

Ltac emits_steps := emits_steps_with fail.

Ltac unfold_all_handlers :=
  unfold handleKey, sendMessage, toggleListening; unfold_handlers.

Lemma trim_idempotent s : trim (trim s) = trim s.
Proof.
  unfold trim at 1. rewrite (trimStart_fixed _ (trim_head s)).
  unfold trimEnd. rewrite (trimStart_fixed _ (trim_last s)).
  apply rev_involutive.
Qed.

Lemma sendMessage_well_formed_ask v p o :
  emits_only well_formed_ask (sendMessage v p o).
Proof.
  unfold sendMessage. apply emits_bind; [apply emits_get|]. intros s.
  cbv zeta.
  destruct (falsy (trim (input s))) eqn:Gt; simpl; [apply emits_ret|].
  destruct (loading s); [apply emits_ret|].
  assert (Hw : well_formed_ask (Fetch (PostAsk (trim (input s)) (activeId s)))
               = true).
  { simpl. rewrite Gt, trim_idempotent, jsstring_eqb_refl. reflexivity. }
  unfold speakText.
  emits_steps_with ltac:(apply emits_fetch; exact Hw).
Qed.

Lemma handle_well_formed_ask v p o e :
  emits_only well_formed_ask (handle v p o e).
Proof.
  destruct e; cbn [handle];
    try apply sendMessage_well_formed_ask.
  all: try solve [unfold toggleListening; unfold_handlers; emits_steps].
  (* KeyDown *)
  unfold handleKey.
  destruct (jsstring_eqb (key e) (js "Enter") && negb (shiftKey e));
    [|apply emits_ret].
  apply emits_bind; [now apply emits_perform|].
  intros _. apply sendMessage_well_formed_ask.
Qed.

(** X26. No empty message ever goes to the backend: in any session, every
    ask request carries a text that is not empty and that has no white
    space at either end. *)
Theorem ask_requests_well_formed v p evs s m c :
  In (Fetch (PostAsk m c)) (snd (run v p evs s)) ->
  m <> [] /\ trim m = m.
Proof.
  intros Hin.
  pose proof (@run_emits well_formed_ask v p (handle_well_formed_ask v p) evs s)
    as H.
  rewrite forallb_forall in H. specialize (H _ Hin). simpl in H.
  apply andb_true_iff in H. destruct H as [H1 H2].
  apply jsstring_eqb_eq in H2. split; [|exact H2].
  intros ->. discriminate H1.
Qed.

Lemma ask_requests_well_formed_witness :
  js "Hello" <> [] /\ trim (js "Hello") = js "Hello".
Proof.
  apply (@ask_requests_well_formed ChatJsx full_platform
           [(offline, InputChange (js "  Hello  ")); (offline, ClickSend)]
           initial_state (js "Hello") None).
  vm_compute. tauto.
Defined.

Lemma handle_synthesis_in_order v p o e :
  emits_only (synthesis_in_order p) (handle v p o e).
Proof.
  destruct p as [rs [] hg]; destruct e; cbn [handle];
    unfold_all_handlers; simpl; emits_steps.
Qed.

(** X27. In any session, speech synthesis is touched only where the
    browser supports it, and every utterance spoken has rate, pitch and
    volume 1. *)
Theorem synthesis_only_where_supported v p evs s :
  (p.(synthSupported) = false ->
   forall u, ~ In SynthCancel (snd (run v p evs s))
             /\ ~ In (SynthSpeak u) (snd (run v p evs s)))
  /\ (forall u, In (SynthSpeak u) (snd (run v p evs s)) ->
      u.(rate) = 1%Z /\ u.(pitch) = 1%Z /\ u.(volume) = 1%Z).
Proof.
  pose proof (@run_emits (synthesis_in_order p) v p
                (handle_synthesis_in_order v p) evs s) as H.
  rewrite forallb_forall in H. split.
  - intros Hp u. split; intros Hin; specialize (H _ Hin); simpl in H;
      rewrite Hp in H; discriminate H.
  - intros u Hin. specialize (H _ Hin). simpl in H.
    apply andb_true_iff in H. destruct H as [_ H].
    apply andb_true_iff in H. destruct H as [H Hv].
    apply andb_true_iff in H. destruct H as [Hr Hpi].
    apply Z.eqb_eq in Hr, Hpi, Hv. auto.
Qed.

Lemma synthesis_only_where_supported_witness :
  let evs := [(replying (js "Hi there"), InputChange (js "Hello"));
              (replying (js "Hi there"), ClickSend)] in
  ~ In SynthCancel (snd (run ChatJsx bare_platform evs initial_state))
  /\ (new_SpeechSynthesisUtterance (js "Hi there")).(rate) = 1%Z.
Proof.
  intros evs.
  destruct (synthesis_only_where_supported ChatJsx bare_platform evs
              initial_state) as [H _].
  destruct (synthesis_only_where_supported ChatJsx full_platform evs
              initial_state) as [_ H2].
  split.
  - apply (H eq_refl (new_SpeechSynthesisUtterance [])).
  - apply (H2 (new_SpeechSynthesisUtterance (js "Hi there"))).
    vm_compute. tauto.
Defined.

Lemma handle_microphone_in_order v p o e :
  emits_only (microphone_in_order p) (handle v p o e).
Proof.
  destruct p as [[] ss []]; destruct e; cbn [handle];
    unfold_all_handlers; simpl; emits_steps.
Qed.

(** X28. In any session, the microphone is asked for only where the
    browser has [getUserMedia] and supports recognition, and a recognition
    object is constructed, started or stopped only where recognition is
    supported. *)
Theorem microphone_only_where_supported v p evs s :
  (In GetUserMedia (snd (run v p evs s)) ->
   p.(has_getUserMedia) = true /\ p.(recSupported) = true)
  /\ (forall r,
        In (NewRecognition r) (snd (run v p evs s))
        \/ In (RecStart r) (snd (run v p evs s))
        \/ In (RecStop r) (snd (run v p evs s)) ->
        p.(recSupported) = true).
Proof.
  pose proof (@run_emits (microphone_in_order p) v p
                (handle_microphone_in_order v p) evs s) as H.
  rewrite forallb_forall in H. split.
  - intros Hin. specialize (H _ Hin). simpl in H.
    now apply andb_true_iff in H.
  - intros r [Hin | [Hin | Hin]]; specialize (H _ Hin); exact H.
Qed.

Lemma microphone_only_where_supported_witness :
  full_platform.(has_getUserMedia) = true
  /\ full_platform.(recSupported) = true.
Proof.
  apply (microphone_only_where_supported ChatJsx full_platform
           [(offline, ClickSpeak)] initial_state).
  vm_compute. tauto.
Defined.
